(** * Web3AirdropOS browser service: the CDP protocol bridge

    A shallow embedding of [src/browser-service/browser_controller.py]
    (class [BrowserController]) and the properties of its request/response
    correlation, event routing and command dispatch.

    Modelling conventions.
    - Values decoded by [json.loads] are terms of [json]; number literals
      with a fraction or an exponent (Python floats) are outside the
      modelled fragment.  [json.dumps] followed by [json.loads] is the
      identity on this fragment, so a frame is identified with the value
      it encodes.
    - The controller's attributes and the objects it talks to (the asyncio
      futures, the websocket, the redis bus, stdout) form the record
      [state].
    - An [async def] is a function into [res]: it runs atomically on the
      state up to its next suspension point ([asyncio.wait_for] on a
      future, [asyncio.sleep]) and hands back its continuation, which is
      how asyncio schedules coroutines on its single thread.
    - Inputs chosen by the outside world (the discovery reply, inbound
      frames, bus deliveries, the clock) are arguments.
    - Library behaviour taken as given: when [wait_for] times out, the
      cancellation of the future and the [except] clause of the caller run
      without another task in between; a suspension inside
      [ws_connection.send] is merged with the one in [wait_for] that
      follows it (no attribute changes between the two); a publish on the
      bus succeeds; a string is a sequence of characters, one [ascii]
      each; the texts of built-in exceptions are CPython's. *)

From stdpp Require Import base option list strings gmap pretty.
From Stdlib Require Import ZArith String Ascii.

Local Open Scope string_scope.
Local Open Scope Z_scope.

(** ** JSON values as Python sees them *)

#[warnings="-register-all"]
Inductive json : Type :=
| JNull
| JBool (b : bool)
| JInt (n : Z)
| JStr (s : string)
| JArr (items : list json)
| JObj (fields : list (string * json)).

(** Exceptions: every class below derives from Python's [Exception]. *)
Inductive exn_class : Type :=
| Exception | TimeoutError | ConnectionClosed | TypeError | AttributeError
| KeyError | IndexError | InvalidStateError | JSONDecodeError | ClientError.

Inductive exn : Type := Exn (cls : exn_class) (msg : string).

Definition exn_cls (e : exn) : exn_class := let 'Exn c _ := e in c.
(** [str(e)] *)
Definition str_exn (e : exn) : string := let 'Exn _ m := e in m.

#[export] Instance exn_class_eq_dec : EqDecision exn_class.
Proof. solve_decision. Defined.

Module Py.

(** [type(v).__name__] *)
Definition type_name (v : json) : string :=
  match v with
  | JNull => "NoneType" | JBool _ => "bool" | JInt _ => "int"
  | JStr _ => "str" | JArr _ => "list" | JObj _ => "dict"
  end.

(** [bool(v)] *)
Definition truthy (v : json) : bool :=
  match v with
  | JNull => false
  | JBool b => b
  | JInt n => negb (n =? 0)
  | JStr s => negb (String.eqb s "")
  | JArr l => match l with [] => false | _ => true end
  | JObj l => match l with [] => false | _ => true end
  end.

(** [a or b] *)
Definition or (a b : json) : json := if truthy a then a else b.

(** [v == s] for a string literal [s]: only a string equals a string. *)
Definition eq_str (v : json) (s : string) : bool :=
  match v with JStr s' => String.eqb s' s | _ => false end.

(** [v in [s1, s2, ...]] for a list of string literals. *)
Definition in_strs (v : json) (l : list string) : bool :=
  existsb (eq_str v) l.

(** Lookup in a dict whose keys are strings. *)
Fixpoint assoc (k : string) (d : list (string * json)) : option json :=
  match d with
  | [] => None
  | (k', v) :: d' => if String.eqb k' k then Some v else assoc k d'
  end.

(** [d[k] = v] on a dict: overwrite in place, or append a new key. *)
Fixpoint assoc_set (k : string) (v : json) (d : list (string * json))
  : list (string * json) :=
  match d with
  | [] => [(k, v)]
  | (k', v') :: d' =>
      if String.eqb k' k then (k', v) :: d' else (k', v') :: assoc_set k v d'
  end.

Definition no_attribute (v : json) (attr : string) : exn :=
  Exn AttributeError
    ("'" +:+ type_name v +:+ "' object has no attribute '" +:+ attr +:+ "'").

(** [v.get(k, default)]: only dicts have [get]. *)
Definition get (v : json) (k : string) (default : json) : exn + json :=
  match v with
  | JObj d => inr (match assoc k d with Some x => x | None => default end)
  | _ => inl (no_attribute v "get")
  end.

Definition has_substring (needle s : string) : bool :=
  match String.index 0 needle s with Some _ => true | None => false end.

(** [k in v] for a string literal [k]. *)
Definition contains (k : string) (v : json) : exn + bool :=
  match v with
  | JObj d => inr (match assoc k d with Some _ => true | None => false end)
  | JArr l => inr (existsb (fun x => eq_str x k) l)
  | JStr s => inr (has_substring k s)
  | _ => inl (Exn TypeError
                ("argument of type '" +:+ type_name v +:+ "' is not iterable"))
  end.

(** [repr(k)] of a string key without quotes or backslashes. *)
Definition repr_key (k : string) : string := "'" +:+ k +:+ "'".

(** [repr(v)] of a hashable value, as [str(KeyError(v))] shows it (lists
    and dicts are not hashable and never get here). *)
Definition repr_scalar (v : json) : string :=
  match v with
  | JNull => "None"
  | JBool true => "True"
  | JBool false => "False"
  | JInt n => pretty n
  | JStr s => repr_key s
  | JArr _ | JObj _ => ""
  end.

(** [v[k]] for a string literal [k]. *)
Definition getitem (v : json) (k : string) : exn + json :=
  match v with
  | JObj d => match assoc k d with
              | Some x => inr x
              | None => inl (Exn KeyError (repr_key k))
              end
  | JArr _ => inl (Exn TypeError "list indices must be integers or slices, not str")
  | JStr _ => inl (Exn TypeError "string indices must be integers, not 'str'")
  | _ => inl (Exn TypeError
                ("'" +:+ type_name v +:+ "' object is not subscriptable"))
  end.

(** The key under which [v] is looked up in a dict whose keys are ints:
    [hash] fails on lists and dicts; a bool is the int 0 or 1; [None]
    and strings are hashable but equal to no int. *)
Definition int_key (v : json) : exn + option Z :=
  match v with
  | JInt n => inr (Some n)
  | JBool b => inr (Some (if b then 1 else 0))
  | JNull | JStr _ => inr None
  | JArr _ | JObj _ =>
      inl (Exn TypeError ("unhashable type: '" +:+ type_name v +:+ "'"))
  end.

(** [for x in v]: the sequence of values the loop variable takes. *)
Definition iter (v : json) : exn + list json :=
  match v with
  | JStr s => inr (map (fun c => JStr (String c EmptyString)) (list_ascii_of_string s))
  | JArr l => inr l
  | JObj d => inr (map (fun kv => JStr (fst kv)) d)
  | _ => inl (Exn TypeError ("'" +:+ type_name v +:+ "' object is not iterable"))
  end.

End Py.

(** ** The controller and its world *)

(** An [asyncio.Future]. *)
Inductive future_state : Type :=
| FPending
| FResult (data : json)
| FCancelled.

(** The websocket object behind [self.ws_connection]. *)
Record websocket : Type := mkWs {
  ws_url : json;                (* the address it was opened on *)
  ws_closed : option string     (* [Some reason] once the peer is gone *)
}.

(** An f-string with one hole is kept as its prefix and the value put in
    the hole; [Lit s] is a finished string. *)
Inductive text : Type :=
| Lit (s : string)
| Fmt (prefix : string) (arg : json).

Record state : Type := mkState {
  (* attributes of BrowserController *)
  ws_connection : option websocket;
  message_id : Z;
  pending_commands : gmap Z nat;
  (* the world *)
  futures : list future_state;       (* futures created so far, by handle *)
  ws_sent : list json;               (* frames written to the websocket *)
  redis_published : list (text * json);  (* (channel, payload), oldest first *)
  stdout : list text                 (* printed lines, oldest first *)
}.

(** [BrowserController.__init__] *)
Definition init : state :=
  mkState None 0 ∅ [] [] [] [].

Definition set_ws_connection (w : option websocket) (st : state) : state :=
  mkState w (message_id st) (pending_commands st) (futures st)
          (ws_sent st) (redis_published st) (stdout st).
Definition set_message_id (n : Z) (st : state) : state :=
  mkState (ws_connection st) n (pending_commands st) (futures st)
          (ws_sent st) (redis_published st) (stdout st).
Definition set_pending_commands (p : gmap Z nat) (st : state) : state :=
  mkState (ws_connection st) (message_id st) p (futures st)
          (ws_sent st) (redis_published st) (stdout st).
Definition set_futures (f : list future_state) (st : state) : state :=
  mkState (ws_connection st) (message_id st) (pending_commands st) f
          (ws_sent st) (redis_published st) (stdout st).
Definition set_ws_sent (s : list json) (st : state) : state :=
  mkState (ws_connection st) (message_id st) (pending_commands st) (futures st)
          s (redis_published st) (stdout st).
Definition set_redis_published (p : list (text * json)) (st : state) : state :=
  mkState (ws_connection st) (message_id st) (pending_commands st) (futures st)
          (ws_sent st) p (stdout st).
Definition set_stdout (o : list text) (st : state) : state :=
  mkState (ws_connection st) (message_id st) (pending_commands st) (futures st)
          (ws_sent st) (redis_published st) o.

(** ** Coroutines *)

(** What the event loop tells a coroutine suspended in
    [asyncio.wait_for(future, timeout)] when it resumes it. *)
Inductive wake : Type :=
| Resolved (data : json)   (* the future completed with [data] *)
| TimedOut.                (* the timeout elapsed first *)

(** The result of running a coroutine from a state up to its next
    suspension point. *)
Inductive res (A : Type) : Type :=
| Done (r : exn + A) (st : state)
| Await (st : state) (fut : nat) (k : wake → state → res A)
| Sleep (st : state) (k : state → res A).
Arguments Done {A} r st.
Arguments Await {A} st fut k.
Arguments Sleep {A} st k.

Definition coro (A : Type) : Type := state → res A.

Fixpoint bind_res {A B} (r : res A) (f : A → coro B) : res B :=
  match r with
  | Done (inr a) st => f a st
  | Done (inl e) st => Done (inl e) st
  | Await st fut k => Await st fut (fun w st' => bind_res (k w st') f)
  | Sleep st k => Sleep st (fun st' => bind_res (k st') f)
  end.

#[export] Instance coro_ret : MRet coro := fun A a st => Done (inr a) st.
#[export] Instance coro_bind : MBind coro :=
  fun A B f m st => bind_res (m st) f.

(** A primitive given by what it does to the state. *)
Definition act {A} (f : state → res A) : coro A := f.

Definition raise {A} (e : exn) : coro A := fun st => Done (inl e) st.

(** Lift a Python expression that may raise. *)
Definition eval {A} (r : exn + A) : coro A := fun st => Done r st.

Definition gets {A} (f : state → A) : coro A := fun st => Done (inr (f st)) st.
Definition modify (f : state → state) : coro () := fun st => Done (inr ()) (f st).

(** [try: body  except <class>: handler]: [handler e] is [None] when no
    [except] clause matches [e]. *)
Fixpoint catch_res {A} (r : res A) (handler : exn → option (coro A)) : res A :=
  match r with
  | Done (inl e) st =>
      match handler e with Some h => h st | None => Done (inl e) st end
  | Done (inr a) st => Done (inr a) st
  | Await st fut k => Await st fut (fun w st' => catch_res (k w st') handler)
  | Sleep st k => Sleep st (fun st' => catch_res (k st') handler)
  end.

Definition try_except {A} (body : coro A) (handler : exn → option (coro A))
  : coro A :=
  fun st => catch_res (body st) handler.

(** [except cls as e: h e] *)
Definition except (cls : exn_class) {A} (h : exn → coro A) (e : exn)
  : option (coro A) :=
  if bool_decide (exn_cls e = cls) then Some (h e) else None.

(** [except Exception as e: h e] catches every class. *)
Definition except_Exception {A} (h : exn → coro A) (e : exn)
  : option (coro A) := Some (h e).

(** Two [except] clauses, tried in order. *)
Definition or_except {A} (h1 h2 : exn → option (coro A)) (e : exn)
  : option (coro A) :=
  match h1 e with Some h => Some h | None => h2 e end.

(** ** Primitives of the world *)

Definition print (line : text) : coro () :=
  modify (fun st => set_stdout (stdout st ++ [line]) st).

(** [self.redis_client.publish(channel, json.dumps(payload))]; the bus
    takes every message. *)
Definition redis_publish (channel : text) (payload : json) : coro () :=
  modify (fun st => set_redis_published (redis_published st ++ [(channel, payload)]) st).

(** [asyncio.get_event_loop().create_future()] *)
Definition create_future : coro nat :=
  fun st => Done (inr (List.length (futures st)))
                 (set_futures (futures st ++ [FPending]) st).

(** [future.set_result(data)] *)
Definition set_result (fut : nat) (data : json) : coro () :=
  fun st =>
    match futures st !! fut with
    | Some FPending => Done (inr ()) (set_futures (<[fut := FResult data]> (futures st)) st)
    | _ => Done (inl (Exn InvalidStateError "invalid state")) st
    end.

Definition cancel (fut : nat) (st : state) : state :=
  set_futures (<[fut := FCancelled]> (futures st)) st.

(** [await asyncio.wait_for(future, timeout=...)]: suspend; the event loop
    resumes the coroutine with the result of the future, or with the
    timeout, on which the future is cancelled and [asyncio.TimeoutError]
    is raised. *)
Definition wait_for (fut : nat) : coro json :=
  fun st =>
    Await st fut (fun w st' =>
      match w with
      | Resolved data => Done (inr data) st'
      | TimedOut => Done (inl (Exn TimeoutError "")) (cancel fut st')
      end).

(** [await asyncio.sleep(...)] *)
Definition sleep : coro () :=
  fun st => Sleep st (fun st' => Done (inr ()) st').

(** [await self.ws_connection.send(json.dumps(message))] *)
Definition ws_send (message : json) : coro () :=
  fun st =>
    match ws_connection st with
    | Some (mkWs _ None) => Done (inr ()) (set_ws_sent (ws_sent st ++ [message]) st)
    | Some (mkWs _ (Some reason)) => Done (inl (Exn ConnectionClosed reason)) st
    | None => Done (inl (Py.no_attribute JNull "send")) st
    end.

(** ** BrowserController.send_command *)

(** The dict [self.pending_commands], addressed by a Python value. *)

Definition key_error {A} (key : json) : exn + A :=
  inl (Exn KeyError (Py.repr_scalar key)).

(** The entry under a hashed key; [None] is a key equal to no int. *)
Definition pending_lookup (key : option Z) (st : state) : option nat :=
  match key with
  | Some k => pending_commands st !! k
  | None => None
  end.

(** [message_id in self.pending_commands] *)
Definition pending_contains (message_id : json) : coro bool :=
  key ← eval (Py.int_key message_id);
  gets (fun st => bool_decide (is_Some (pending_lookup key st))).

(** [self.pending_commands[message_id]] *)
Definition pending_getitem (message_id : json) : coro nat :=
  key ← eval (Py.int_key message_id);
  act (fun st =>
    match pending_lookup key st with
    | Some future => Done (inr future) st
    | None => Done (key_error message_id) st
    end).

(** [del self.pending_commands[message_id]] *)
Definition pending_delitem (message_id : json) : coro () :=
  key ← eval (Py.int_key message_id);
  act (fun st =>
    match key with
    | Some k =>
        match pending_commands st !! k with
        | Some _ => Done (inr ()) (set_pending_commands (delete k (pending_commands st)) st)
        | None => Done (key_error message_id) st
        end
    | None => Done (key_error message_id) st
    end).

Definition send_command (method : string) (params : json) : coro json :=
  ws ← gets ws_connection;
  if negb (bool_decide (is_Some ws)) then
    raise (Exn Exception "Not connected to browser")
  else
    modify (fun st => set_message_id (message_id st + 1) st);;
    message_id ← gets message_id;
    let message := JObj [("id", JInt message_id);
                         ("method", JStr method);
                         ("params", Py.or params (JObj []))] in
    future ← create_future;
    modify (fun st => set_pending_commands (<[message_id := future]> (pending_commands st)) st);;
    ws_send message;;
    try_except (wait_for future)
      (except TimeoutError (fun _ =>
         pending_delitem (JInt message_id);;
         raise (Exn Exception ("Command " +:+ method +:+ " timed out")))).

(** ** Inbound traffic *)

(** A text received from the websocket or the bus, as [json.loads] sees
    it: the value it decodes to, or the message of the [JSONDecodeError]
    it raises. *)
Inductive payload : Type :=
| Text (v : json)
| Garbage (error : string).

Definition json_loads (p : payload) : coro json :=
  match p with
  | Text v => mret v
  | Garbage error => raise (Exn JSONDecodeError error)
  end.

(** One [await self.ws_connection.recv()]. *)
Inductive recv : Type :=
| RecvMessage (message : payload)
| RecvClosed (reason : string).

Definition ws_recv (r : recv) : coro payload :=
  match r with
  | RecvMessage message => mret message
  | RecvClosed reason =>
      modify (fun st =>
        match ws_connection st with
        | Some ws => set_ws_connection (Some (mkWs (ws_url ws) (Some reason))) st
        | None => st
        end);;
      raise (Exn ConnectionClosed reason)
  end.

(** ** BrowserController.handle_event

    [now] is [datetime.utcnow().isoformat()] at the time of the call. *)
Definition handle_event (now : string) (event : json) : coro () :=
  method ← eval (Py.get event "method" (JStr ""));
  params ← eval (Py.get event "params" (JObj []));
  if Py.in_strs method ["Page.loadEventFired"; "Page.frameNavigated";
                        "Network.requestWillBeSent"] then
    redis_publish (Lit "browser:events")
      (JObj [("type", method); ("params", params); ("timestamp", JStr now)])
  else mret ().

(** ** BrowserController.handle_messages *)

(** The statements inside [try:] of one iteration of the loop. *)
Definition handle_messages_body (now : string) (r : recv) : coro () :=
  message ← ws_recv r;
  data ← json_loads message;
  has_id ← eval (Py.contains "id" data);
  if has_id : bool then
    message_id ← eval (Py.getitem data "id");
    present ← pending_contains message_id;
    if present : bool then
      future ← pending_getitem message_id;
      set_result future data;;
      pending_delitem message_id
    else mret ()
  else
    has_method ← eval (Py.contains "method" data);
    if has_method : bool then handle_event now data else mret ().

Inductive loop_exit : Type := Continue | Break.

(** One iteration, with its two [except] clauses. *)
Definition handle_messages_iter (now : string) (r : recv) : coro loop_exit :=
  try_except (handle_messages_body now r;; mret Continue)
    (or_except
       (except ConnectionClosed (fun _ =>
          print (Lit "Browser connection closed");;
          mret Break))
       (except_Exception (fun e =>
          print (Lit ("Error handling message: " +:+ str_exn e));;
          mret Continue))).

(** Whether the loop is still in [while True] or has left it. *)
Inductive reader : Type := Reading | Stopped.

(** The loop over the frames that arrive, each with the time it is
    handled at; when they are used up the loop is waiting in [recv()]. *)
Fixpoint handle_messages (inbound : list (string * recv)) : coro reader :=
  match inbound with
  | [] => mret Reading
  | (now, r) :: rest =>
      exit ← handle_messages_iter now r;
      match exit with
      | Break => mret Stopped
      | Continue => handle_messages rest
      end
  end.

(** ** Derived operations *)

Definition navigate (url : json) : coro json :=
  send_command "Page.navigate" (JObj [("url", url)]).

Definition screenshot : coro json :=
  result ← send_command "Page.captureScreenshot"
             (JObj [("format", JStr "png"); ("quality", JInt 80)]);
  inner ← eval (Py.get result "result" (JObj []));
  eval (Py.get inner "data" (JStr "")).

Definition click (x y : json) : coro () :=
  send_command "Input.dispatchMouseEvent"
    (JObj [("type", JStr "mousePressed"); ("x", x); ("y", y);
           ("button", JStr "left"); ("clickCount", JInt 1)]);;
  send_command "Input.dispatchMouseEvent"
    (JObj [("type", JStr "mouseReleased"); ("x", x); ("y", y);
           ("button", JStr "left"); ("clickCount", JInt 1)]);;
  mret ().

Fixpoint type_chars (chars : list json) : coro () :=
  match chars with
  | [] => mret ()
  | char :: rest =>
      send_command "Input.dispatchKeyEvent"
        (JObj [("type", JStr "keyDown"); ("text", char)]);;
      send_command "Input.dispatchKeyEvent"
        (JObj [("type", JStr "keyUp"); ("text", char)]);;
      sleep;;
      type_chars rest
  end.

Definition type_text (text : json) : coro () :=
  chars ← eval (Py.iter text);
  type_chars chars.

Definition evaluate (expression : json) : coro json :=
  result ← send_command "Runtime.evaluate"
             (JObj [("expression", expression); ("returnByValue", JBool true)]);
  r1 ← eval (Py.get result "result" (JObj []));
  r2 ← eval (Py.get r1 "result" (JObj []));
  eval (Py.get r2 "value" JNull).

(** ** BrowserController.process_command *)

(** The [if/elif] chain inside [try:]; it returns the [result] dict as the
    chain leaves it.  In every branch the only statement that can raise is
    the awaited call, which comes before the first update of [result]. *)
Definition run_action (command action : json) (result : list (string * json))
  : coro (list (string * json)) :=
  if Py.eq_str action "navigate" then
    url ← eval (Py.get command "url" JNull);
    navigate url;;
    mret (Py.assoc_set "success" (JBool true) result)
  else if Py.eq_str action "screenshot" then
    data ← screenshot;
    mret (Py.assoc_set "data" data (Py.assoc_set "success" (JBool true) result))
  else if Py.eq_str action "click" then
    x ← eval (Py.get command "x" (JInt 0));
    y ← eval (Py.get command "y" (JInt 0));
    click x y;;
    mret (Py.assoc_set "success" (JBool true) result)
  else if Py.eq_str action "type" then
    text ← eval (Py.get command "text" (JStr ""));
    type_text text;;
    mret (Py.assoc_set "success" (JBool true) result)
  else if Py.eq_str action "evaluate" then
    expression ← eval (Py.get command "expression" (JStr ""));
    value ← evaluate expression;
    mret (Py.assoc_set "value" value (Py.assoc_set "success" (JBool true) result))
  else if Py.eq_str action "get_url" then
    url ← evaluate (JStr "window.location.href");
    mret (Py.assoc_set "url" url (Py.assoc_set "success" (JBool true) result))
  else mret result.

Definition process_command (command : json) : coro () :=
  action ← eval (Py.get command "action" JNull);
  session_id ← eval (Py.get command "session_id" JNull);
  let result := [("session_id", session_id); ("success", JBool false)] in
  result ← try_except (run_action command action result)
             (except_Exception (fun e =>
                mret (Py.assoc_set "error" (JStr (str_exn e)) result)));
  redis_publish (Fmt "browser:result:" session_id) (JObj result).

(** ** BrowserController.listen_for_commands *)

(** What [pubsub.listen()] yields: a message of type ["message"] with its
    data, or one of another type (the subscribe confirmation). *)
Inductive bus_message : Type :=
| BusMessage (data : payload)
| BusOther.

Fixpoint listen_loop (deliveries : list bus_message) : coro () :=
  match deliveries with
  | [] => mret ()
  | BusOther :: rest => listen_loop rest
  | BusMessage data :: rest =>
      try_except (command ← json_loads data; process_command command)
        (except_Exception (fun e =>
           print (Lit ("Error processing command: " +:+ str_exn e))));;
      listen_loop rest
  end.

Definition listen_for_commands (deliveries : list bus_message) : coro () :=
  print (Lit "Listening for browser commands...");;
  listen_loop deliveries.

(** ** BrowserController.connect_to_browser *)

(** [targets[0]] *)
Definition first_item (targets : json) : exn + json :=
  match targets with
  | JArr (t :: _) => inr t
  | JArr [] => inl (Exn IndexError "list index out of range")
  | JStr (String c _) => inr (JStr (String c EmptyString))
  | JStr EmptyString => inl (Exn IndexError "string index out of range")
  | JObj _ => inl (Exn KeyError "0")
  | _ => inl (Exn TypeError
                ("'" +:+ Py.type_name targets +:+ "' object is not subscriptable"))
  end.

(** [next((t for t in items if t.get("type") == "page"), default)] *)
Fixpoint next_page (items : list json) (default : json) : exn + json :=
  match items with
  | [] => inr default
  | t :: rest =>
      match Py.get t "type" JNull with
      | inl e => inl e
      | inr ty => if Py.eq_str ty "page" then inr t else next_page rest default
      end
  end.

(** [discovery] is the outcome of the HTTP GET of the target list and of
    decoding its body; [dial ws_url] is the outcome of
    [websockets.connect(ws_url)], [None] when the connection opens. *)
Definition connect_to_browser (discovery : exn + json)
    (dial : json → option exn) : coro bool :=
  try_except
    (targets ← eval discovery;
     if negb (Py.truthy targets) then
       print (Lit "No browser targets found");;
       mret false
     else
       items ← eval (Py.iter targets);
       default ← eval (first_item targets);
       page_target ← eval (next_page items default);
       ws_url ← eval (Py.get page_target "webSocketDebuggerUrl" JNull);
       if negb (Py.truthy ws_url) then
         print (Lit "No WebSocket URL found");;
         mret false
       else
         match dial ws_url with
         | Some e => raise e
         | None =>
             modify (set_ws_connection (Some (mkWs ws_url None)));;
             print (Fmt "Connected to browser: " ws_url);;
             mret true
         end)
    (except_Exception (fun e =>
       print (Lit ("Failed to connect to browser: " +:+ str_exn e));;
       mret false)).

(** ** The statements of the specification, in its own words *)

Module Spec.

(** "the first of type page, falling back to the first target overall
    if none match" *)
Definition is_page (target : list (string * json)) : bool :=
  match Py.assoc "type" target with
  | Some ty => Py.eq_str ty "page"
  | None => false
  end.

Definition select_target (targets : list (list (string * json)))
  : option (list (string * json)) :=
  match List.find is_page targets with
  | Some t => Some t
  | None => head targets
  end.

(** "page-load completion, frame navigation, outbound network request
    initiation" *)
Definition allow_list : list string :=
  ["Page.loadEventFired"; "Page.frameNavigated"; "Network.requestWillBeSent"].

(** The action names the dispatcher maps to protocol calls. *)
Definition recognized : list string :=
  ["navigate"; "screenshot"; "click"; "type"; "evaluate"; "get_url"].

End Spec.

(** ** Observations on states *)

Definition say (line : text) (st : state) : state :=
  set_stdout (stdout st ++ [line]) st.

Definition publish (channel : text) (payload : json) (st : state) : state :=
  set_redis_published (redis_published st ++ [(channel, payload)]) st.

(** The websocket is there and has not been closed. *)
Definition connected (st : state) : Prop :=
  ∃ url, ws_connection st = Some (mkWs url None).

(** The state a coroutine stopped or suspended in. *)
Definition final {A} (r : res A) : state :=
  match r with Done _ st | Await st _ _ | Sleep st _ => st end.

(** What the manager does with the target it has selected. *)
Definition open_target (target : list (string * json))
    (dial : json → option exn) (st : state) : res bool :=
  match Py.assoc "webSocketDebuggerUrl" target with
  | Some ws_url =>
      if Py.truthy ws_url then
        match dial ws_url with
        | None =>
            Done (inr true)
              (say (Fmt "Connected to browser: " ws_url)
                 (set_ws_connection (Some (mkWs ws_url None)) st))
        | Some e =>
            Done (inr false)
              (say (Lit ("Failed to connect to browser: " +:+ str_exn e)) st)
        end
      else Done (inr false) (say (Lit "No WebSocket URL found") st)
  | None => Done (inr false) (say (Lit "No WebSocket URL found") st)
  end.

(** [id] is a hashable value that is not a key of the correlation table. *)
Definition absent (id : json) (st : state) : Prop :=
  ∃ key, Py.int_key id = inr key ∧ pending_lookup key st = None.

(** A session right after a successful connect to [url]. *)
Definition session (url : json) : state :=
  set_ws_connection (Some (mkWs url None)) init.

(** ** What send_command does, by phase *)

(** The frame of a request. *)
Definition request (id : Z) (method : string) (params : json) : json :=
  JObj [("id", JInt id); ("method", JStr method);
        ("params", Py.or params (JObj []))].

(** The state once the id is allocated and the Pending Request is in the
    table, before the frame is written. *)
Definition enrolled (st : state) : state :=
  set_pending_commands
    (<[message_id st + 1 := List.length (futures st)]> (pending_commands st))
    (set_futures (futures st ++ [FPending])
       (set_message_id (message_id st + 1) st)).

(** The state in which the call suspends. *)
Definition registered (method : string) (params : json) (st : state) : state :=
  set_ws_sent
    (ws_sent st ++ [request (message_id st + 1) method params])
    (enrolled st).

(** The continuation of a suspended call. *)
Definition resume (method : string) (id : Z) (future : nat)
    (w : wake) (st : state) : res json :=
  match w with
  | Resolved data => Done (inr data) st
  | TimedOut =>
      match pending_commands st !! id with
      | Some _ =>
          Done (inl (Exn Exception ("Command " +:+ method +:+ " timed out")))
               (set_pending_commands (delete id (pending_commands st))
                  (cancel future st))
      | None => Done (inl (Exn KeyError (pretty id))) (cancel future st)
      end
  end.

(** The key of the table that an inbound frame addresses, if any. *)
Definition response_id (data : json) : option Z :=
  match data with
  | JObj fields =>
      match Py.assoc "id" fields with
      | Some id => match Py.int_key id with inr key => key | inl _ => None end
      | None => None
      end
  | _ => None
  end.

Definition response_key (r : recv) : option Z :=
  match r with
  | RecvMessage (Text data) => response_id data
  | _ => None
  end.

(** Every entry of the correlation table points to a future that exists. *)
Definition table_wf (st : state) : Prop :=
  ∀ m f, pending_commands st !! m = Some f → (f < List.length (futures st))%nat.

(** The call with id [m] is outstanding on future [fut], and no other
    entry of the table shares that future. *)
Definition outstanding (m : Z) (fut : nat) (st : state) : Prop :=
  pending_commands st !! m = Some fut ∧
  futures st !! fut = Some FPending ∧
  ∀ m' f', pending_commands st !! m' = Some f' → m' ≠ m → f' ≠ fut.

(** No frame of [inbound] is a Response to the call with id [m]. *)
Definition unanswered (m : Z) (inbound : list (string * recv)) : Prop :=
  Forall (fun nr => response_key nr.2 ≠ Some m) inbound.

(** The parameters of the two mouse events of a click and of an
    evaluation, as [click] and [evaluate] build them. *)
Definition mouse_event (type : string) (x y : json) : json :=
  JObj [("type", JStr type); ("x", x); ("y", y);
        ("button", JStr "left"); ("clickCount", JInt 1)].

Definition evaluation (expression : json) : json :=
  JObj [("expression", expression); ("returnByValue", JBool true)].

(** The reply channel and the two fixed fields of a Command Result. *)
Definition reply_channel (fields : list (string * json)) : text :=
  Fmt "browser:result:" (default JNull (Py.assoc "session_id" fields)).

Definition result_of (fields : list (string * json)) (success : bool)
  : list (string * json) :=
  [("session_id", default JNull (Py.assoc "session_id" fields));
   ("success", JBool success)].

(** ** The event loop

    Any number of tasks call [send_command] next to the read loop.  The
    event loop runs one of them at a time, each up to its next suspension
    point; which one, and when a timeout elapses, is the schedule. *)

Record call : Type := mkCall {
  call_id : Z;             (* the local [message_id] of the invocation *)
  call_task : res json     (* where the invocation stands *)
}.

Record system : Type := mkSystem {
  sys_state : state;
  sys_reader : reader;
  sys_calls : list call    (* the invocations, in the order they started *)
}.

Inductive event : Type :=
| Issue (method : string) (params : json)  (* a task calls send_command *)
| Inbound (now : string) (r : recv)        (* the read loop handles a frame *)
| Wake (i : nat)           (* call [i] is resumed, its future being done *)
| Expire (i : nat).        (* the timeout of call [i] elapses *)

(** Resume call [i] if it can be: with the result of its future if there
    is one, with the timeout if [expired] and the future is pending. *)
Definition resume_call (i : nat) (expired : bool) (s : system) : system :=
  match sys_calls s !! i with
  | Some (mkCall id (Await _ fut k)) =>
      let continue w :=
        let r := k w (sys_state s) in
        mkSystem (final r) (sys_reader s) (<[i := mkCall id r]> (sys_calls s)) in
      match futures (sys_state s) !! fut with
      | Some (FResult data) => continue (Resolved data)
      | Some FPending => if expired then continue TimedOut else s
      | _ => s
      end
  | _ => s
  end.

Definition step (ev : event) (s : system) : system :=
  match ev with
  | Issue method params =>
      let r := send_command method params (sys_state s) in
      mkSystem (final r) (sys_reader s)
               (sys_calls s ++ [mkCall (message_id (final r)) r])
  | Inbound now r =>
      match sys_reader s with
      | Stopped => s
      | Reading =>
          let out := handle_messages_iter now r (sys_state s) in
          mkSystem (final out)
                   (match out with Done (inr Break) _ => Stopped | _ => Reading end)
                   (sys_calls s)
      end
  | Wake i => resume_call i false s
  | Expire i => resume_call i true s
  end.

Definition exec (events : list event) (s : system) : system :=
  foldl (fun s ev => step ev s) s events.

(** The system when a session has just been opened on [url]. *)
Definition boot (url : json) : system :=
  mkSystem (session url) Reading [].

(** Where the [i]-th invocation may stand. *)
Definition task_ok (i : nat) (t : res json) : Prop :=
  match t with
  | Done (inr data) _ => response_id data = Some (Z.of_nat i + 1)
  | Done (inl _) _ => True
  | Await _ fut k =>
      fut = i ∧ ∃ method, ∀ w st', k w st' = resume method (Z.of_nat i + 1) i w st'
  | Sleep _ _ => False
  end.

(** What every schedule preserves. *)
Record inv (s : system) : Prop := mkInv {
  inv_ws : is_Some (ws_connection (sys_state s));
  inv_id : message_id (sys_state s) = Z.of_nat (List.length (sys_calls s));
  inv_futures : List.length (futures (sys_state s)) = List.length (sys_calls s);
  inv_calls : ∀ i c, sys_calls s !! i = Some c →
                call_id c = Z.of_nat i + 1 ∧ task_ok i (call_task c);
  inv_table : ∀ m f, pending_commands (sys_state s) !! m = Some f →
                m = Z.of_nat f + 1;
  inv_results : ∀ f data, futures (sys_state s) !! f = Some (FResult data) →
                  response_id data = Some (Z.of_nat f + 1);
  inv_wire : ∀ j frame, ws_sent (sys_state s) !! j = Some frame →
               ∃ m, response_id frame = Some m ∧ m ≤ message_id (sys_state s);
  inv_wire_order : ∀ j j' frame frame', (j < j')%nat →
               ws_sent (sys_state s) !! j = Some frame →
               ws_sent (sys_state s) !! j' = Some frame' →
               ∃ m m', response_id frame = Some m ∧
                       response_id frame' = Some m' ∧ m < m'
}.

(** ** One calling task next to the read loop

    [drive env rd r] runs the task [r] to its end.  Each time the task
    suspends, the read loop (if it is still reading) handles the frames
    [env st] that arrive meanwhile, [st] being the state at the
    suspension; a task waiting for a future is then resumed with the
    future's result, or with the timeout if the future is still not done. *)

Definition read (rd : reader) (inbound : list (string * recv)) (st : state)
  : reader * state :=
  match rd with
  | Stopped => (Stopped, st)
  | Reading =>
      match handle_messages inbound st with
      | Done (inr rd') st' => (rd', st')
      | r => (Reading, final r)
      end
  end.

Fixpoint drive {A} (env : state → list (string * recv)) (rd : reader)
    (r : res A) : (exn + A) * state * reader :=
  match r with
  | Done x st => (x, st, rd)
  | Await st fut k =>
      let '(rd', st') := read rd (env st) st in
      drive env rd'
        (k (match futures st' !! fut with
            | Some (FResult data) => Resolved data
            | _ => TimedOut
            end) st')
  | Sleep st k =>
      let '(rd', st') := read rd (env st) st in
      drive env rd' (k st')
  end.

(** A Response to request [id] carrying an error payload. *)
Definition error_response (error : json) (id : Z) : json :=
  JObj [("id", JInt id); ("error", error)].

(** The browser that answers the request last sent with an error. *)
Definition error_reply (error : json) (now : string) (st : state)
  : list (string * recv) :=
  [(now, RecvMessage (Text (error_response error (message_id st))))].

(** The state once the read loop has resolved the Pending Request [m]. *)
Definition resolved (m : Z) (fut : nat) (data : json) (st : state) : state :=
  set_pending_commands (delete m (pending_commands st))
    (set_futures (<[fut := FResult data]> (futures st)) st).

(** The calling task is connected and the request last sent is no longer
    in the table. *)
Definition settled (st : state) : Prop :=
  connected st ∧ pending_commands st !! message_id st = None.

(** ** One request at a time

    [lockstep base r]: from a point where the frames written so far are
    [base], the task [r] writes nothing before it ends or sleeps, and
    exactly one frame, the request whose Pending Request it then waits
    for, before it suspends on a call; and so again from wherever it is
    resumed. *)
Inductive lockstep {A} : list json → res A → Prop :=
| lockstep_done base x st :
    ws_sent st = base → lockstep base (Done x st)
| lockstep_await base st fut k id method params :
    ws_sent st = (base ++ [request id method params])%list →
    pending_commands st !! id = Some fut →
    (∀ w st', lockstep (ws_sent st') (k w st')) →
    lockstep base (Await st fut k)
| lockstep_sleep base st k :
    ws_sent st = base →
    (∀ st', lockstep (ws_sent st') (k st')) →
    lockstep base (Sleep st k).

(** Every invocation so far is suspended on its own Pending Request. *)
Record all_waiting (s : system) : Prop := mkWaiting {
  aw_connected : connected (sys_state s);
  aw_id : message_id (sys_state s) = Z.of_nat (List.length (sys_calls s));
  aw_futures : List.length (futures (sys_state s)) = List.length (sys_calls s);
  aw_size : size (pending_commands (sys_state s)) = List.length (sys_calls s);
  aw_fresh : ∀ m, message_id (sys_state s) < m →
               pending_commands (sys_state s) !! m = None;
  aw_calls : ∀ i c, sys_calls s !! i = Some c →
               call_id c = Z.of_nat i + 1 ∧
               (∃ st k, call_task c = Await st i k) ∧
               pending_commands (sys_state s) !! (Z.of_nat i + 1) = Some i ∧
               futures (sys_state s) !! i = Some FPending
}.

Definition issue (request : string * json) : event :=
  Issue request.1 request.2.

(** ** Sample inputs *)

(** A session with one call outstanding: request 1, on future 0. *)
Definition one_outstanding : state :=
  final (send_command "Page.navigate" (JObj [("url", JStr "https://x")])
           (session (JStr "ws://h/1"))).

(** A Response to a request that is not in the table. *)
Definition late_fields : list (string * json) :=
  [("id", JInt 7); ("result", JObj [])].

(** Two navigate commands delivered one after the other. *)
Definition two_commands : list bus_message :=
  [BusMessage (Text (JObj [("action", JStr "navigate"); ("session_id", JStr "s1");
                           ("url", JStr "https://a")]));
   BusMessage (Text (JObj [("action", JStr "navigate"); ("session_id", JStr "s2");
                           ("url", JStr "https://b")]))].

(** Two calls started back to back, answered out of order, then resumed. *)
Definition out_of_order : list event :=
  [Issue "Page.navigate" (JObj [("url", JStr "https://a")]);
   Issue "Runtime.evaluate" (evaluation (JStr "1+1"));
   Inbound "t1" (RecvMessage (Text (JObj [("id", JInt 2); ("result", JObj [])])));
   Inbound "t2" (RecvMessage (Text (JObj [("id", JInt 1); ("result", JObj [])])));
   Wake 0%nat; Wake 1%nat].

(** The browser that answers request 1 and nothing after it. *)
Definition answers_first (st : state) : list (string * recv) :=
  if message_id st =? 1 then
    [("t", RecvMessage (Text (JObj [("id", JInt 1); ("result", JObj [])])))]
  else [].

(** The browser that answers request 7 with an empty result. *)
Definition answers_seven (st : state) : list (string * recv) :=
  [("t", RecvMessage (Text (JObj [("id", JInt 7); ("result", JObj [])])))].

(** ** BrowserController.run

    One connection attempt is the outcome of the discovery request and of
    the dial, as [connect_to_browser] takes them. *)
Record attempt : Type := mkAttempt {
  att_discovery : exn + json;
  att_dial : json → option exn
}.

(** The [while True] loop of [run] over the attempts made so far; when
    they are used up without success the loop is still retrying. *)
Fixpoint connect_loop (attempts : list attempt) : coro bool :=
  match attempts with
  | [] => mret false
  | a :: rest =>
      ok ← connect_to_browser (att_discovery a) (att_dial a);
      if ok : bool then mret true
      else
        print (Lit "Retrying connection in 5 seconds...");;
        sleep;;
        connect_loop rest
  end.

(** Where [run] has got to: still in the connect loop, or at its last
    statement, [asyncio.gather(handle_messages(), listen_for_commands())]. *)
Inductive run_exit : Type := Retrying | Gathering.

Definition run (attempts : list attempt) : coro run_exit :=
  sleep;;
  ok ← connect_loop attempts;
  if ok : bool then
    send_command "Page.enable" JNull;;
    send_command "Network.enable" JNull;;
    send_command "Runtime.enable" JNull;;
    mret Gathering
  else mret Retrying.

(** [asyncio.run(task)]: the event loop with this one task and no other.
    Nothing else can complete a future the task waits for, so a wait on a
    future that is not done ends with its timeout. *)
Fixpoint asyncio_run {A} (r : res A) : (exn + A) * state :=
  match r with
  | Done x st => (x, st)
  | Await st fut k =>
      asyncio_run
        (k (match futures st !! fut with
            | Some (FResult data) => Resolved data
            | _ => TimedOut
            end) st)
  | Sleep st k => asyncio_run (k st)
  end.

(** ** More observations *)

(** The websocket is there and has been closed. *)
Definition closed (st : state) : Prop :=
  ∃ url reason, ws_connection st = Some (mkWs url (Some reason)).

(** The browser that answers the request last sent with [payload]. *)
Definition reply (payload : list (string * json)) (now : string) (st : state)
  : list (string * recv) :=
  [(now, RecvMessage (Text (JObj (("id", JInt (message_id st)) :: payload))))].

(** The browser that never answers. *)
Definition silent (st : state) : list (string * recv) := [].

(** The publications on reply channels, oldest first. *)
Definition is_reply (publication : text * json) : bool :=
  match publication.1 with
  | Fmt prefix _ => String.eqb prefix "browser:result:"
  | Lit _ => false
  end.

Definition results (st : state) : list (text * json) :=
  List.filter is_reply (redis_published st).

(** A Command Result as [process_command] builds it: the session id, the
    success flag, then whatever the action added. *)
Definition command_result (publication : text * json) : Prop :=
  ∃ session_id success rest,
    publication =
      (Fmt "browser:result:" session_id,
       JObj (("session_id", session_id) :: ("success", JBool success) :: rest)).

(** The deliveries that decode to an object, in order. *)
Definition object_commands (deliveries : list bus_message)
  : list (list (string * json)) :=
  omap (fun d => match d with
                 | BusMessage (Text (JObj fields)) => Some fields
                 | _ => None
                 end) deliveries.

(** [ends I Q r]: the task [r] is in a state satisfying [I] whenever it
    suspends, provided it is resumed in such a state, and it ends with an
    outcome and a state satisfying [Q]. *)
Inductive ends {A} (I : state → Prop) (Q : exn + A → state → Prop)
  : res A → Prop :=
| ends_done x st : Q x st → ends I Q (Done x st)
| ends_await st fut k :
    I st → (∀ w st', I st' → ends I Q (k w st')) → ends I Q (Await st fut k)
| ends_sleep st k :
    I st → (∀ st', I st' → ends I Q (k st')) → ends I Q (Sleep st k).

(** The first request a command issues, if it issues one. *)
Definition first_call (fields : list (string * json)) : option (string * json) :=
  let action := default JNull (Py.assoc "action" fields) in
  if Py.eq_str action "navigate" then
    Some ("Page.navigate", JObj [("url", default JNull (Py.assoc "url" fields))])
  else if Py.eq_str action "screenshot" then
    Some ("Page.captureScreenshot",
          JObj [("format", JStr "png"); ("quality", JInt 80)])
  else if Py.eq_str action "click" then
    Some ("Input.dispatchMouseEvent",
          mouse_event "mousePressed" (default (JInt 0) (Py.assoc "x" fields))
                                     (default (JInt 0) (Py.assoc "y" fields)))
  else if Py.eq_str action "type" then
    match Py.iter (default (JStr "") (Py.assoc "text" fields)) with
    | inr (char :: _) =>
        Some ("Input.dispatchKeyEvent",
              JObj [("type", JStr "keyDown"); ("text", char)])
    | _ => None
    end
  else if Py.eq_str action "evaluate" then
    Some ("Runtime.evaluate",
          evaluation (default (JStr "") (Py.assoc "expression" fields)))
  else if Py.eq_str action "get_url" then
    Some ("Runtime.evaluate", evaluation (JStr "window.location.href"))
  else None.

(** The frames [type_text] writes for [chars] when the last id used is
    [n]: a key-down and a key-up per character. *)
Fixpoint key_frames (n : Z) (chars : list json) : list json :=
  match chars with
  | [] => []
  | char :: rest =>
      request (n + 1) "Input.dispatchKeyEvent"
        (JObj [("type", JStr "keyDown"); ("text", char)]) ::
      request (n + 2) "Input.dispatchKeyEvent"
        (JObj [("type", JStr "keyUp"); ("text", char)]) ::
      key_frames (n + 2) rest
  end.

(** What [evaluate] returns for the Response [{"id": .., "result": r}]. *)
Definition evaluated (r : json) : exn + json :=
  match Py.get r "result" (JObj []) with
  | inl e => inl e
  | inr inner => Py.get inner "value" JNull
  end.

(** No frame of [inbound] reports that the connection closed. *)
Definition no_close (inbound : list (string * recv)) : Prop :=
  Forall (fun nr => ∀ reason, nr.2 ≠ RecvClosed reason) inbound.

(** Every entry of the correlation table points to a pending future. *)
Definition table_pending (st : state) : Prop :=
  ∀ m f, pending_commands st !! m = Some f → futures st !! f = Some FPending.

(** What every schedule preserves, continued. *)
Definition sound (s : system) : Prop :=
  inv s ∧ table_pending (sys_state s) ∧
  (sys_reader s = Stopped → closed (sys_state s)).

(** The read loop has stopped, invocation [n] has failed and its Pending
    Request is still there. *)
Definition leaked (n : nat) (s : system) : Prop :=
  sys_reader s = Stopped ∧
  (∃ c reason st, sys_calls s !! n = Some c ∧
                  call_task c = Done (inl (Exn ConnectionClosed reason)) st) ∧
  pending_commands (sys_state s) !! (Z.of_nat n + 1) = Some n ∧
  futures (sys_state s) !! n = Some FPending.

(** The browser that answers the requests up to id [m] and none after. *)
Definition answers_upto (m : Z) (payload : list (string * json)) (now : string)
    (st : state) : list (string * recv) :=
  if message_id st <=? m then reply payload now st else [].

(** The outcome a command reports: the fields the action adds on success,
    or the failure. *)
Definition reported (fields : list (string * json)) (key : string)
    (outcome : exn + json) : json :=
  JObj (match outcome with
        | inr v => result_of fields true ++ [(key, v)]
        | inl e => result_of fields false ++ [("error", JStr (str_exn e))]
        end).

(** * Properties *)

(** Decide which [except] clause an exception of a known class meets. *)
Ltac decide_class :=
  repeat match goal with
  | |- context [bool_decide (exn_cls (Exn ?c ?m) = ?c')] =>
      let b := eval vm_compute in (bool_decide (c = c')) in
      change (bool_decide (exn_cls (Exn c m) = c')) with b
  end.

(** Close a case of the read loop that leaves the correlation state alone. *)
Ltac quiet H :=
  match goal with
  | |- context [RecvMessage ?m = RecvClosed _] => by apply (H m)
  end.

(** Decide the comparisons of a known action with the action names. *)
Ltac pick_action :=
  cbn [from_option id Py.eq_str String.eqb Ascii.eqb Bool.eqb].

(** Run a coroutine symbolically up to its next suspension point. *)
Ltac run_coro :=
  repeat (progress (
    cbv beta delta [mbind coro_bind mret coro_ret eval gets modify act raise
                    print redis_publish try_except except except_Exception
                    or_except json_loads ws_recv Py.no_attribute];
    decide_class;
    cbn [bind_res catch_res])).

(** ** connect_to_browser *)

Lemma next_page_dicts (targets : list (list (string * json))) (default : json) :
  next_page (JObj <$> targets) default =
  inr (match List.find Spec.is_page targets with
       | Some t => JObj t
       | None => default
       end).
Proof.
  induction targets as [|t targets IH]; [done|].
  cbn [fmap list_fmap next_page List.find Py.get]. unfold Spec.is_page.
  destruct (Py.assoc "type" t) as [ty|]; cbn.
  - destruct (Py.eq_str ty "page"); [done|apply IH].
  - apply IH.
Qed.

Lemma connect_to_browser_total discovery dial st :
  ∃ b st', connect_to_browser discovery dial st = Done (inr b) st'.
Proof.
  unfold connect_to_browser. run_coro.
  destruct discovery as [e|targets]; run_coro; [eauto|].
  destruct (Py.truthy targets); run_coro; [|eauto].
  destruct (Py.iter targets) as [e|items]; run_coro; [eauto|].
  destruct (first_item targets) as [e|default]; run_coro; [eauto|].
  destruct (next_page items default) as [e|page_target]; run_coro; [eauto|].
  destruct (Py.get page_target "webSocketDebuggerUrl" JNull) as [e|ws_url];
    run_coro; [eauto|].
  destruct (Py.truthy ws_url); run_coro; [|eauto].
  destruct (dial ws_url); run_coro; eauto.
Qed.

(** C6: from the discovery endpoint's list of target descriptors the
    manager selects the first target of type "page", or the first target
    overall when there is none, and opens the control channel on that
    target's address; an empty list, or a selected target without an
    address, makes [connect_to_browser] return [False] (the connect
    error), and no input whatsoever makes it raise. *)
Theorem C6_target_selection :
  (∀ (targets : list (list (string * json))) dial st,
     connect_to_browser (inr (JArr (JObj <$> targets))) dial st =
     match Spec.select_target targets with
     | Some target => open_target target dial st
     | None => Done (inr false) (say (Lit "No browser targets found") st)
     end) ∧
  (∀ dial st,
     connect_to_browser (inr (JArr [])) dial st =
     Done (inr false) (say (Lit "No browser targets found") st)) ∧
  (∀ (targets : list (list (string * json))) target dial st,
     Spec.select_target targets = Some target →
     Py.assoc "webSocketDebuggerUrl" target = None →
     connect_to_browser (inr (JArr (JObj <$> targets))) dial st =
     Done (inr false) (say (Lit "No WebSocket URL found") st)) ∧
  (∀ discovery dial st,
     ∃ b st', connect_to_browser discovery dial st = Done (inr b) st').
Proof.
  assert (Hselect : ∀ (targets : list (list (string * json))) dial st,
     connect_to_browser (inr (JArr (JObj <$> targets))) dial st =
     match Spec.select_target targets with
     | Some target => open_target target dial st
     | None => Done (inr false) (say (Lit "No browser targets found") st)
     end).
  { intros targets dial st.
    destruct targets as [|t0 targets]; [done|].
    unfold connect_to_browser, Spec.select_target. run_coro.
    cbn [Py.truthy fmap list_fmap negb Py.iter first_item].
    change (next_page (JObj t0 :: _) _)
      with (next_page (JObj <$> (t0 :: targets)) (JObj t0)).
    rewrite next_page_dicts. run_coro.
    assert (∃ t, (match List.find Spec.is_page (t0 :: targets) with
                  | Some t => Some t | None => head (t0 :: targets) end = Some t) ∧
                 (match List.find Spec.is_page (t0 :: targets) with
                  | Some t => JObj t | None => JObj t0 end = JObj t))
      as (t & -> & ->) by (destruct (List.find _ _); eauto).
    cbn [Py.get head]. unfold open_target.
    destruct (Py.assoc "webSocketDebuggerUrl" t) as [ws_url|]; run_coro; [|done].
    destruct (Py.truthy ws_url); run_coro; [|done].
    destruct (dial ws_url); done. }
  split_and!.
  - exact Hselect.
  - done.
  - intros targets target dial st Hsel Hurl.
    rewrite Hselect, Hsel. unfold open_target. by rewrite Hurl.
  - apply connect_to_browser_total.
Qed.

(** ** send_command *)

Lemma send_command_not_connected method params st :
  ws_connection st = None →
  send_command method params st =
  Done (inl (Exn Exception "Not connected to browser")) st.
Proof. intros H. unfold send_command. run_coro. by rewrite H. Qed.

Lemma send_command_closed method params st url reason :
  ws_connection st = Some (mkWs url (Some reason)) →
  send_command method params st =
  Done (inl (Exn ConnectionClosed reason)) (enrolled st).
Proof.
  intros H. unfold send_command. run_coro. rewrite H. cbn [negb bool_decide].
  rewrite bool_decide_eq_true_2 by eauto. cbn [negb]. run_coro.
  unfold create_future, ws_send. run_coro.
  destruct st; cbn in *; subst. reflexivity.
Qed.

Lemma send_command_connected method params st :
  connected st →
  ∃ k, send_command method params st =
       Await (registered method params st) (List.length (futures st)) k ∧
       ∀ w st', k w st' = resume method (message_id st + 1) (List.length (futures st)) w st'.
Proof.
  intros [url H]. unfold send_command. run_coro. rewrite H.
  rewrite bool_decide_eq_true_2 by eauto. cbn [negb]. run_coro.
  unfold create_future, ws_send, wait_for. run_coro.
  destruct st; cbn in *; subst. cbn [bind_res catch_res].
  eexists. split; [reflexivity|].
  intros [data|] st'; cbn [catch_res exn_cls]; [done|].
  rewrite bool_decide_eq_true_2 by done.
  unfold pending_delitem. run_coro. cbn [Py.int_key]. run_coro.
  unfold resume, cancel. cbn.
  destruct (pending_commands st' !! _); reflexivity.
Qed.

(** ** handle_event and the read loop *)

Lemma in_allow_list (method : json) :
  Py.in_strs method Spec.allow_list = true ↔
  ∃ name, name ∈ Spec.allow_list ∧ method = JStr name.
Proof.
  unfold Py.in_strs. rewrite existsb_exists. split.
  - intros (name & Hin & Heq). exists name. split; [by apply list_elem_of_In|].
    destruct method; try discriminate. cbn in Heq.
    apply String.eqb_eq in Heq. by subst.
  - intros (name & Hin & ->). exists name. split; [by apply list_elem_of_In|].
    cbn. apply String.eqb_refl.
Qed.

(** C7: a Notification (an inbound object with a method and no id) is
    republished on the events channel as {type, params, timestamp} when
    its event name is one of the three allow-listed names, and otherwise
    leaves the whole state as it was: nothing is published and nothing is
    printed. *)
Theorem C7_event_allow_list now fields method st :
  Py.assoc "id" fields = None →
  Py.assoc "method" fields = Some method →
  handle_messages_iter now (RecvMessage (Text (JObj fields))) st =
    Done (inr Continue)
      (if Py.in_strs method Spec.allow_list then
         publish (Lit "browser:events")
           (JObj [("type", method);
                  ("params", default (JObj []) (Py.assoc "params" fields));
                  ("timestamp", JStr now)]) st
       else st) ∧
  (Py.in_strs method Spec.allow_list = true ↔
   method = JStr "Page.loadEventFired" ∨ method = JStr "Page.frameNavigated" ∨
   method = JStr "Network.requestWillBeSent").
Proof.
  intros Hid Hmethod. split.
  - unfold handle_messages_iter, handle_messages_body. run_coro.
    cbn [Py.contains]. rewrite Hid, Hmethod. run_coro.
    unfold handle_event. run_coro. cbn [Py.get]. rewrite Hmethod. run_coro.
    change (Py.in_strs method _) with (Py.in_strs method Spec.allow_list).
    destruct (Py.in_strs method Spec.allow_list); run_coro; [|done].
    by destruct (Py.assoc "params" fields).
  - rewrite in_allow_list. unfold Spec.allow_list. split.
    + intros (name & Hin & ->).
      repeat (apply elem_of_cons in Hin as [->|Hin]; [tauto|]).
      by apply elem_of_nil in Hin.
    + intros [->|[->| ->]]; eexists; (split; [|done]);
        repeat first [apply list_elem_of_here | apply list_elem_of_further].
Qed.

Lemma C7_event_allow_list_witness :
  handle_messages_iter "2026-01-01T00:00:00"
    (RecvMessage (Text (JObj [("method", JStr "Page.frameNavigated");
                              ("params", JObj [("frame", JNull)])])))
    (session (JStr "ws://h/1")) =
  Done (inr Continue)
    (publish (Lit "browser:events")
       (JObj [("type", JStr "Page.frameNavigated");
              ("params", JObj [("frame", JNull)]);
              ("timestamp", JStr "2026-01-01T00:00:00")])
       (session (JStr "ws://h/1"))).
Proof.
  exact (proj1 (C7_event_allow_list "2026-01-01T00:00:00"
                  [("method", JStr "Page.frameNavigated");
                   ("params", JObj [("frame", JNull)])]
                  (JStr "Page.frameNavigated") (session (JStr "ws://h/1"))
                  eq_refl eq_refl)).
Defined.

Lemma late_response now fields id st :
  Py.assoc "id" fields = Some id →
  absent id st →
  handle_messages_iter now (RecvMessage (Text (JObj fields))) st =
    Done (inr Continue) st.
Proof.
  intros Hid (key & Hkey & Habsent).
  unfold handle_messages_iter, handle_messages_body. run_coro.
  cbn [Py.contains Py.getitem]. rewrite Hid. run_coro.
  unfold pending_contains. run_coro. rewrite Hkey. run_coro.
  rewrite Habsent. by rewrite bool_decide_eq_false_2 by (by intros [? ?]).
Qed.

(** C5 (as the code has it): a Response whose id is not a key of the
    correlation table is discarded silently: the iteration of the read
    loop leaves the whole state as it was, so nothing is printed (neither
    a warning nor an error) and every Pending Request, with its future,
    is unchanged. *)
Theorem C5_late_response_discarded now fields id st :
  Py.assoc "id" fields = Some id →
  absent id st →
  handle_messages_iter now (RecvMessage (Text (JObj fields))) st =
    Done (inr Continue) st.
Proof. apply late_response. Qed.

(** C1 (as the code has it): when the connection is lost the read loop
    prints that the connection closed and stops, whatever else was to
    arrive; it does not sweep the correlation table: every Pending Request
    is still in the table and every future is in the state it was in, so
    the outstanding calls are still pending. *)
Theorem C1_connection_loss_no_sweep now reason rest st :
  ∃ st',
    handle_messages ((now, RecvClosed reason) :: rest) st = Done (inr Stopped) st' ∧
    pending_commands st' = pending_commands st ∧
    futures st' = futures st ∧
    message_id st' = message_id st ∧
    redis_published st' = redis_published st ∧
    stdout st' = (stdout st ++ [Lit "Browser connection closed"])%list.
Proof.
  cbn [handle_messages]. unfold handle_messages_iter, handle_messages_body.
  run_coro. eexists. split; [reflexivity|].
  by destruct (ws_connection st).
Qed.

(** What one iteration of the read loop can do to the correlation state:
    nothing, or resolve the future found under the frame's id and delete
    that entry.  It never raises and never suspends. *)
Lemma handle_messages_iter_spec now r st :
  ∃ x st',
    handle_messages_iter now r st = Done (inr x) st' ∧
    message_id st' = message_id st ∧
    ws_sent st' = ws_sent st ∧
    (is_Some (ws_connection st') ↔ is_Some (ws_connection st)) ∧
    (x = Break ↔ ∃ reason, r = RecvClosed reason) ∧
    ((pending_commands st' = pending_commands st ∧ futures st' = futures st) ∨
     (∃ data key future,
        r = RecvMessage (Text data) ∧ response_id data = Some key ∧
        pending_commands st !! key = Some future ∧
        futures st !! future = Some FPending ∧
        futures st' = <[future := FResult data]> (futures st) ∧
        pending_commands st' = delete key (pending_commands st))).
Proof.
  assert (Hnb : ∀ m, Continue = Break ↔ ∃ reason, RecvMessage m = RecvClosed reason)
    by (intros m; split; [done|by intros [? ?]]).
  assert (Hquiet : ∀ m x st',
    x = Continue → message_id st' = message_id st → ws_sent st' = ws_sent st →
    ws_connection st' = ws_connection st →
    pending_commands st' = pending_commands st → futures st' = futures st →
    ∃ x0 st0, @Done loop_exit (inr x) st' = Done (inr x0) st0 ∧
      message_id st0 = message_id st ∧ ws_sent st0 = ws_sent st ∧
      (is_Some (ws_connection st0) ↔ is_Some (ws_connection st)) ∧
      (x0 = Break ↔ ∃ reason, RecvMessage m = RecvClosed reason) ∧
      ((pending_commands st0 = pending_commands st ∧ futures st0 = futures st) ∨
       (∃ data key future,
          RecvMessage m = RecvMessage (Text data) ∧ response_id data = Some key ∧
          pending_commands st !! key = Some future ∧
          futures st !! future = Some FPending ∧
          futures st0 = <[future := FResult data]> (futures st) ∧
          pending_commands st0 = delete key (pending_commands st)))).
  { intros m x st' -> ? ? Hws ? ?. eexists _, _.
    split_and!; [done|done|done|by rewrite Hws|apply Hnb|by left]. }
  unfold handle_messages_iter, handle_messages_body.
  destruct r as [[data|error]|reason]; run_coro.
  2: { quiet Hquiet. }
  2: { eexists _, _. split; [done|].
       destruct (ws_connection st) eqn:Hws; cbn; rewrite ?Hws;
         split_and!; try done; try (by left); by (split; eauto). }
  destruct data as [|b|n|s|items|fields];
    try (cbn [Py.contains]; run_coro; quiet Hquiet).
  - (* a string *)
    cbn [Py.contains]. run_coro.
    destruct (Py.has_substring "id" s); run_coro.
    { cbn [Py.getitem]. run_coro. quiet Hquiet. }
    destruct (Py.has_substring "method" s); run_coro; [|quiet Hquiet].
    unfold handle_event. run_coro. cbn [Py.get]. run_coro. quiet Hquiet.
  - (* a list *)
    cbn [Py.contains]. run_coro.
    destruct (existsb _ items); run_coro.
    { cbn [Py.getitem]. run_coro. quiet Hquiet. }
    destruct (existsb _ items); run_coro; [|quiet Hquiet].
    unfold handle_event. run_coro. cbn [Py.get]. run_coro. quiet Hquiet.
  - (* an object *)
    cbn [Py.contains Py.getitem].
    destruct (Py.assoc "id" fields) as [id|] eqn:Hid; run_coro.
    + unfold pending_contains, pending_getitem, pending_delitem, set_result.
      run_coro.
      destruct (Py.int_key id) as [e|key] eqn:Hkey; run_coro.
      { destruct id; try discriminate; injection Hkey as <-; quiet Hquiet. }
      destruct (pending_lookup key st) as [future|] eqn:Hlook; run_coro.
      2: { rewrite bool_decide_eq_false_2 by (by intros [? ?]). run_coro.
           quiet Hquiet. }
      rewrite bool_decide_eq_true_2 by eauto. run_coro.
      rewrite Hlook. run_coro.
      destruct (futures st !! future) as [[| |]|] eqn:Hfut; run_coro;
        try (quiet Hquiet).
      destruct key as [key|]; [|done]. cbn [pending_lookup] in Hlook.
      cbn [pending_commands set_futures]. rewrite Hlook. run_coro.
      eexists _, _; split_and!; [done..|apply Hnb|right].
      eexists _, key, future. split_and!; try done.
      cbn [response_id]. by rewrite Hid, Hkey.
    + destruct (Py.assoc "method" fields) as [method|]; run_coro;
        [|quiet Hquiet].
      unfold handle_event. run_coro. cbn [Py.get]. run_coro.
      destruct (Py.in_strs _ _); run_coro; quiet Hquiet.
Qed.

Lemma registered_outstanding method params st :
  table_wf st →
  outstanding (message_id st + 1) (List.length (futures st))
    (registered method params st).
Proof.
  intros Hwf. unfold outstanding, registered, enrolled. cbn. split_and!.
  - apply lookup_insert_eq.
  - by rewrite lookup_app_r, Nat.sub_diag.
  - intros m' f' Hm' Hne ->. rewrite lookup_insert_ne in Hm' by done.
    apply Hwf in Hm'. lia.
Qed.

Lemma handle_messages_iter_outstanding m fut now r st :
  outstanding m fut st → response_key r ≠ Some m →
  outstanding m fut (final (handle_messages_iter now r st)).
Proof.
  intros (Hm & Hfut & Hexcl) Hr.
  destruct (handle_messages_iter_spec now r st)
    as (x & st' & -> & _ & _ & _ & _ & Hcases).
  cbn [final].
  destruct Hcases as [[Hp Hf]|(data & key & future & -> & Hkey & Hk & _ & Hf & Hp)].
  - unfold outstanding. by rewrite Hp, Hf.
  - cbn [response_key] in Hr. rewrite Hkey in Hr.
    assert (key ≠ m) as Hne by congruence.
    assert (future ≠ fut) as Hfne by (by eapply Hexcl).
    unfold outstanding. rewrite Hp, Hf. split_and!.
    + by rewrite lookup_delete_ne.
    + by rewrite list_lookup_insert_ne.
    + intros m' f' Hm' ?. eapply Hexcl; [|done].
      apply lookup_delete_Some in Hm'. by destruct Hm'.
Qed.

Lemma handle_messages_outstanding m fut inbound st :
  outstanding m fut st → unanswered m inbound →
  ∃ rd st', handle_messages inbound st = Done (inr rd) st' ∧
            outstanding m fut st'.
Proof.
  intros Hout Hun. revert st Hout.
  induction Hun as [|[now r] inbound Hr Hun IH]; intros st Hout.
  - by eexists _, _.
  - pose proof (handle_messages_iter_outstanding m fut now r st Hout Hr) as Hout'.
    destruct (handle_messages_iter_spec now r st) as (x & st' & Heq & _).
    rewrite Heq in Hout'. cbn [final] in Hout'.
    cbn [handle_messages]. run_coro. rewrite Heq. run_coro.
    destruct x; [by apply IH|by eexists _, _].
Qed.

(** C3: a call whose id is answered by none of the frames that arrive
    while it waits is still outstanding when its timeout elapses; it then
    fails with the exception "Command <method> timed out" (the timeout
    error of this code), and its id has been deleted from the correlation
    table: no entry for it remains, and the other entries are the ones
    that were there. *)
Theorem C3_timeout_removes_entry method params inbound st :
  connected st → table_wf st →
  unanswered (message_id st + 1) inbound →
  ∃ st1 future k rd st2 st3,
    send_command method params st = Await st1 future k ∧
    pending_commands st1 !! (message_id st + 1) = Some future ∧
    handle_messages inbound st1 = Done (inr rd) st2 ∧
    futures st2 !! future = Some FPending ∧
    k TimedOut st2 =
      Done (inl (Exn Exception ("Command " +:+ method +:+ " timed out"))) st3 ∧
    pending_commands st3 = delete (message_id st + 1) (pending_commands st2) ∧
    pending_commands st3 !! (message_id st + 1) = None.
Proof.
  intros Hconn Hwf Hun.
  destruct (send_command_connected method params st Hconn) as (k & Hsend & Hk).
  pose proof (registered_outstanding method params st Hwf) as Hout.
  destruct (handle_messages_outstanding _ _ _ _ Hout Hun)
    as (rd & st2 & Hread & Hm & Hfut & _).
  eexists _, _, k, rd, st2, _. split_and!; [done|apply Hout|done|done| | |].
  - rewrite Hk. cbn [resume]. by rewrite Hm.
  - done.
  - apply lookup_delete_eq.
Qed.

Lemma C3_timeout_removes_entry_witness :
  ∃ st1 future k rd st2 st3,
    send_command "Page.navigate" (JObj [("url", JStr "https://x")])
      (session (JStr "ws://h/1")) = Await st1 future k ∧
    pending_commands st1 !! 1 = Some future ∧
    handle_messages
      [("t0", RecvMessage (Text (JObj [("method", JStr "Page.frameNavigated")])));
       ("t1", RecvMessage (Text (JObj [("id", JInt 9); ("result", JObj [])])))]
      st1 = Done (inr rd) st2 ∧
    futures st2 !! future = Some FPending ∧
    k TimedOut st2 =
      Done (inl (Exn Exception "Command Page.navigate timed out")) st3 ∧
    pending_commands st3 = delete 1 (pending_commands st2) ∧
    pending_commands st3 !! 1 = None.
Proof.
  apply (C3_timeout_removes_entry "Page.navigate"
           (JObj [("url", JStr "https://x")])
           [("t0", RecvMessage (Text (JObj [("method", JStr "Page.frameNavigated")])));
            ("t1", RecvMessage (Text (JObj [("id", JInt 9); ("result", JObj [])])))]
           (session (JStr "ws://h/1"))).
  - by eexists.
  - intros m f H. cbn in H. by rewrite lookup_empty in H.
  - repeat constructor; cbn; discriminate.
Defined.

(** ** process_command *)

Lemma get_default fields k d :
  Py.get (JObj fields) k d = inr (default d (Py.assoc k fields)).
Proof. cbn. by destruct (Py.assoc k fields). Qed.

Lemma not_recognized action :
  Py.in_strs action Spec.recognized = false →
  Py.eq_str action "navigate" = false ∧ Py.eq_str action "screenshot" = false ∧
  Py.eq_str action "click" = false ∧ Py.eq_str action "type" = false ∧
  Py.eq_str action "evaluate" = false ∧ Py.eq_str action "get_url" = false.
Proof.
  unfold Py.in_strs, Spec.recognized. cbn [existsb].
  rewrite !orb_false_iff. tauto.
Qed.

(** C4 (as the code has it): an External Command whose action is none of
    the recognized names is not dropped and raises nothing: the
    dispatcher publishes exactly one Command Result for it, on the reply
    channel of its session, with success=false and no other field, so it
    carries no error text. *)
Theorem C4_unknown_action fields st :
  Py.in_strs (default JNull (Py.assoc "action" fields)) Spec.recognized = false →
  process_command (JObj fields) st =
    Done (inr ()) (publish (reply_channel fields) (JObj (result_of fields false)) st).
Proof.
  intros H. apply not_recognized in H as (H1 & H2 & H3 & H4 & H5 & H6).
  unfold process_command. rewrite !get_default. run_coro.
  unfold run_action. by rewrite H1, H2, H3, H4, H5, H6.
Qed.

Lemma C4_unknown_action_witness :
  process_command (JObj [("action", JStr "fly"); ("session_id", JStr "s1")]) init =
  Done (inr ())
    (publish (Fmt "browser:result:" (JStr "s1"))
       (JObj [("session_id", JStr "s1"); ("success", JBool false)]) init).
Proof.
  exact (C4_unknown_action [("action", JStr "fly"); ("session_id", JStr "s1")]
           init eq_refl).
Defined.

(** C4, the claim as stated, fails: the Command Result published for the
    unknown action "fly" has no error field. *)
Lemma C4_no_unsupported_action_error :
  ∃ st' payload,
    process_command (JObj [("action", JStr "fly"); ("session_id", JStr "s1")])
      (session (JStr "ws://h/1")) = Done (inr ()) st' ∧
    redis_published st' = [(Fmt "browser:result:" (JStr "s1"), JObj payload)] ∧
    Py.assoc "success" payload = Some (JBool false) ∧
    Py.assoc "error" payload = None.
Proof.
  eexists _, _. split_and!; [vm_compute; reflexivity..].
Qed.

(** C10: a recognized action whose own parameters are missing runs with
    defaults.  A click without x and y sends the press and then the
    release at (0, 0) and reports success; a type command without text
    types the empty string, so it sends no key event and reports success
    at once; an evaluate command without expression sends the evaluation
    of the empty string. *)
Theorem C10_missing_parameters fields st :
  (Py.assoc "action" fields = Some (JStr "click") →
   Py.assoc "x" fields = None → Py.assoc "y" fields = None →
   connected st →
   ∃ k1,
     process_command (JObj fields) st =
       Await (registered "Input.dispatchMouseEvent"
                (mouse_event "mousePressed" (JInt 0) (JInt 0)) st)
             (List.length (futures st)) k1 ∧
     ∀ data1 st1, connected st1 →
       ∃ k2,
         k1 (Resolved data1) st1 =
           Await (registered "Input.dispatchMouseEvent"
                    (mouse_event "mouseReleased" (JInt 0) (JInt 0)) st1)
                 (List.length (futures st1)) k2 ∧
         ∀ data2 st2,
           k2 (Resolved data2) st2 =
             Done (inr ())
               (publish (reply_channel fields) (JObj (result_of fields true)) st2)) ∧
  (Py.assoc "action" fields = Some (JStr "type") →
   Py.assoc "text" fields = None →
   process_command (JObj fields) st =
     Done (inr ())
       (publish (reply_channel fields) (JObj (result_of fields true)) st) ∧
   type_text (JStr "") st = Done (inr ()) st) ∧
  (Py.assoc "action" fields = Some (JStr "evaluate") →
   Py.assoc "expression" fields = None →
   connected st →
   ∃ k,
     process_command (JObj fields) st =
       Await (registered "Runtime.evaluate" (evaluation (JStr "")) st)
             (List.length (futures st)) k).
Proof.
  split_and!.
  - intros Haction Hx Hy Hconn.
    unfold process_command. rewrite !get_default, Haction. run_coro.
    unfold run_action. pick_action.
    rewrite !get_default, Hx, Hy. pick_action. unfold click. run_coro.
    destruct (send_command_connected "Input.dispatchMouseEvent"
                (mouse_event "mousePressed" (JInt 0) (JInt 0)) st Hconn)
      as (k & Hsend & Hk).
    unfold mouse_event in Hsend. rewrite Hsend. run_coro.
    eexists. split; [reflexivity|].
    intros data1 st1 Hconn1. cbv beta. rewrite Hk. cbn [resume]. run_coro.
    destruct (send_command_connected "Input.dispatchMouseEvent"
                (mouse_event "mouseReleased" (JInt 0) (JInt 0)) st1 Hconn1)
      as (k' & Hsend' & Hk').
    unfold mouse_event in Hsend'. rewrite Hsend'. run_coro.
    eexists. split; [reflexivity|].
    intros data2 st2. cbv beta. rewrite Hk'. cbn [resume]. run_coro.
    reflexivity.
  - intros Haction Htext. split; [|done].
    unfold process_command. rewrite !get_default, Haction. run_coro.
    unfold run_action. pick_action.
    rewrite !get_default, Htext. pick_action. unfold type_text. run_coro.
    reflexivity.
  - intros Haction Hexpr Hconn.
    unfold process_command. rewrite !get_default, Haction. run_coro.
    unfold run_action. pick_action.
    rewrite !get_default, Hexpr. pick_action. unfold evaluate. run_coro.
    destruct (send_command_connected "Runtime.evaluate"
                (evaluation (JStr "")) st Hconn) as (k & Hsend & Hk).
    unfold evaluation in Hsend. rewrite Hsend. run_coro.
    eexists. reflexivity.
Qed.

(** ** Correlation under interleaving *)

Lemma inv_boot url : inv (boot url).
Proof. by split. Qed.

Lemma response_id_request m method params :
  response_id (request m method params) = Some m.
Proof. done. Qed.

Lemma inv_issue method params s : inv s → inv (step (Issue method params) s).
Proof.
  intros [Hws Hid Hfut Hcalls Htable Hres Hwire Horder]. cbn [step].
  set (st := sys_state s) in *.
  assert (∃ r, send_command method params st = r ∧
               final r = (if r is Await _ _ _ then registered method params st
                          else enrolled st) ∧
               task_ok (List.length (sys_calls s)) r) as (r & -> & Hfinal & Hok).
  { destruct Hws as [[url [reason|]] Hws].
    - rewrite (send_command_closed _ _ _ _ _ Hws). by eexists.
    - destruct (send_command_connected method params st) as (k & -> & Hk);
        [by eexists|].
      eexists. split_and!; [done..|]. cbn. split; [done|].
      exists method. intros w st'. rewrite Hk. by rewrite Hid, Hfut. }
  assert (message_id (final r) = message_id st + 1 ∧
          futures (final r) = (futures st ++ [FPending])%list ∧
          pending_commands (final r) =
            <[message_id st + 1 := List.length (futures st)]> (pending_commands st) ∧
          ws_connection (final r) = ws_connection st ∧
          (ws_sent (final r) = ws_sent st ∨
           ws_sent (final r) =
             (ws_sent st ++ [request (message_id st + 1) method params])%list))
    as (Hm & Hf & Hp & Hw & Hsent).
  { rewrite Hfinal. destruct r; split_and!; try done; by (left + right). }
  assert (Hnew : ∀ j frame, ws_sent (final r) !! j = Some frame →
            ws_sent st !! j = Some frame ∨
            (j = List.length (ws_sent st) ∧
             response_id frame = Some (message_id st + 1))).
  { intros j frame. destruct Hsent as [-> | ->]; [by left|].
    intros [?|[? [? <-]%list_lookup_singleton_Some]]%lookup_app_Some;
      [by left|right]. split; [lia|done]. }
  split; cbn [sys_state sys_calls].
  - by rewrite Hw.
  - rewrite Hm, Hid, length_app. cbn. lia.
  - rewrite Hf, !length_app, Hfut. done.
  - intros i c Hi. apply lookup_app_Some in Hi as [Hi|[Hge Hi]].
    + by apply Hcalls.
    + apply list_lookup_singleton_Some in Hi as [Hi <-].
      assert (i = List.length (sys_calls s)) as -> by lia.
      cbn. split; [|done]. rewrite Hm, Hid. done.
  - intros m f. rewrite Hp. intros [[<- <-]|[_ H]]%lookup_insert_Some.
    + rewrite Hid, Hfut. done.
    + by apply Htable.
  - intros f data. rewrite Hf. intros [H|[_ H]]%lookup_app_Some.
    + by apply Hres.
    + by apply list_lookup_singleton_Some in H as [_ ?].
  - intros j frame [Hj|[_ Hj]]%Hnew; rewrite Hm.
    + destruct (Hwire _ _ Hj) as (m & ? & ?). exists m. split; [done|lia].
    + eexists. split; [done|lia].
  - intros j j' frame frame' Hlt [Hj|[Hj Hid1]]%Hnew [Hj'|[Hj' Hid2]]%Hnew.
    + by eapply Horder.
    + destruct (Hwire _ _ Hj) as (m & ? & ?). exists m, (message_id st + 1).
      split_and!; [done..|lia].
    + apply lookup_lt_Some in Hj'. lia.
    + lia.
Qed.

Lemma inv_inbound now r s : inv s → inv (step (Inbound now r) s).
Proof.
  intros Hinv. cbn [step]. destruct (sys_reader s); [|done].
  destruct Hinv as [Hws Hid Hfut Hcalls Htable Hres Hwire Horder].
  destruct (handle_messages_iter_spec now r (sys_state s))
    as (x & st' & -> & Hm & Hs & Hw & _ & Hcases).
  cbn [final].
  destruct Hcases as [[Hp Hf]|(data & key & future & -> & Hkey & Hk & Hpend & Hf & Hp)];
    split; cbn [sys_state sys_calls]; rewrite ?Hm, ?Hp, ?Hf, ?Hs; try done.
  - by apply Hw.
  - by apply Hw.
  - by rewrite length_insert.
  - intros m f [_ H]%lookup_delete_Some. by apply Htable.
  - intros f d Hd. destruct (decide (f = future)) as [->|Hne].
    + rewrite list_lookup_insert_eq in Hd by (by eapply lookup_lt_Some).
      injection Hd as <-. rewrite Hkey. f_equal. by apply Htable.
    + rewrite list_lookup_insert_ne in Hd by done. by apply Hres.
Qed.

Lemma resume_timed_out method id future st :
  ∃ e st',
    resume method id future TimedOut st = Done (inl e) st' ∧
    ws_connection st' = ws_connection st ∧
    message_id st' = message_id st ∧
    ws_sent st' = ws_sent st ∧
    futures st' = <[future := FCancelled]> (futures st) ∧
    ∀ m f, pending_commands st' !! m = Some f → pending_commands st !! m = Some f.
Proof.
  cbn [resume]. destruct (pending_commands st !! id) eqn:Hp;
    eexists _, _; (split; [reflexivity|]); cbn; split_and!; try done.
  intros m f [_ H]%lookup_delete_Some. done.
Qed.

Lemma inv_resume_call i expired s : inv s → inv (resume_call i expired s).
Proof.
  intros Hinv. unfold resume_call.
  destruct (sys_calls s !! i) as [[id [| st0 fut k |]]|] eqn:Hi; try done.
  destruct Hinv as [Hws Hid Hfut Hcalls Htable Hres Hwire Horder].
  destruct (Hcalls _ _ Hi) as [Hcid [-> [method Hk]]]. cbn in Hcid.
  assert (Hupd : ∀ r j c,
            task_ok i r →
            <[i := mkCall id r]> (sys_calls s) !! j = Some c →
            call_id c = Z.of_nat j + 1 ∧ task_ok j (call_task c)).
  { intros r j c Hr Hj. destruct (decide (j = i)) as [->|Hne].
    - rewrite list_lookup_insert_eq in Hj by (by eapply lookup_lt_Some).
      by injection Hj as <-.
    - rewrite list_lookup_insert_ne in Hj by done. by apply Hcalls. }
  destruct (futures (sys_state s) !! i) as [[|data|]|] eqn:Hfi; try done.
  - (* pending *)
    destruct expired; [|done]. rewrite Hk.
    destruct (resume_timed_out method (Z.of_nat i + 1) i (sys_state s))
      as (e & st' & -> & Hw & Hm & Hs & Hf & Hp).
    cbn [final]. split; cbn [sys_state sys_calls]; rewrite ?length_insert.
    + by rewrite Hw.
    + by rewrite Hm.
    + by rewrite Hf, length_insert.
    + intros j c. by apply Hupd.
    + intros m f H. by apply Htable, Hp.
    + intros f d. rewrite Hf. intros Hd.
      destruct (decide (f = i)) as [->|Hne].
      * by rewrite list_lookup_insert_eq in Hd by (by eapply lookup_lt_Some).
      * rewrite list_lookup_insert_ne in Hd by done. by apply Hres.
    + by rewrite Hs, Hm.
    + by rewrite Hs.
  - (* done *)
    rewrite Hk. cbn [resume final].
    split; cbn [sys_state sys_calls]; rewrite ?length_insert; try done.
    intros j c. apply Hupd. cbn. by apply Hres.
Qed.

Lemma inv_step ev s : inv s → inv (step ev s).
Proof.
  destruct ev; [apply inv_issue|apply inv_inbound|apply inv_resume_call..].
Qed.

Lemma exec_cons ev events s : exec (ev :: events) s = exec events (step ev s).
Proof. done. Qed.

Lemma inv_exec events s : inv s → inv (exec events s).
Proof.
  revert s. induction events as [|ev events IH]; intros s Hinv; [done|].
  rewrite exec_cons. by apply IH, inv_step.
Qed.

(** C2: under every interleaving of invocations of [send_command], frames
    handled by the read loop, resumptions and timeouts within one session,
    the invocations get the ids 1, 2, 3, ... of the session's counter in
    the order they start, so every id is fresh, larger than all earlier
    ones and never used again, and the request frames written to the
    connection carry strictly increasing ids; and an invocation that
    returns a Response returns one whose id is its own id (as Python
    compares dict keys), hence never the Response of another invocation. *)
Theorem C2_correlation url events :
  let s := exec events (boot url) in
  (∀ i c, sys_calls s !! i = Some c → call_id c = Z.of_nat i + 1) ∧
  (∀ i j c c', sys_calls s !! i = Some c → sys_calls s !! j = Some c' →
     (i < j)%nat → call_id c < call_id c') ∧
  (∀ j j' frame frame', (j < j')%nat →
     ws_sent (sys_state s) !! j = Some frame →
     ws_sent (sys_state s) !! j' = Some frame' →
     ∃ m m', response_id frame = Some m ∧ response_id frame' = Some m' ∧ m < m') ∧
  (∀ i c data st', sys_calls s !! i = Some c →
     call_task c = Done (inr data) st' →
     response_id data = Some (call_id c)).
Proof.
  intros s. assert (Hinv : inv s) by apply inv_exec, inv_boot.
  destruct Hinv as [_ _ _ Hcalls _ _ _ Horder]. split_and!.
  - intros i c Hi. by apply Hcalls.
  - intros i j c c' Hi Hj Hlt.
    apply Hcalls in Hi as [-> _]. apply Hcalls in Hj as [-> _]. lia.
  - apply Horder.
  - intros i c data st' Hi Htask. apply Hcalls in Hi as [-> Hok].
    by rewrite Htask in Hok.
Qed.

(** ** Responses that carry an error *)

Lemma handle_response now m fut payload st :
  pending_commands st !! m = Some fut →
  futures st !! fut = Some FPending →
  handle_messages_iter now
    (RecvMessage (Text (JObj (("id", JInt m) :: payload)))) st =
  Done (inr Continue) (resolved m fut (JObj (("id", JInt m) :: payload)) st).
Proof.
  intros Hm Hfut. unfold handle_messages_iter, handle_messages_body. run_coro.
  cbn [Py.contains Py.getitem Py.assoc String.eqb Ascii.eqb Bool.eqb]. run_coro.
  unfold pending_contains, pending_getitem, pending_delitem, set_result.
  run_coro. cbn [Py.int_key pending_lookup]. run_coro. rewrite Hm.
  rewrite bool_decide_eq_true_2 by eauto. run_coro. rewrite Hm. run_coro.
  rewrite Hfut. run_coro. cbn [pending_commands set_futures]. rewrite Hm.
  run_coro. reflexivity.
Qed.

Lemma drive_bind {A B} env rd (r : res A) (f : A → coro B) :
  drive env rd (bind_res r f) =
  match drive env rd r with
  | (inr a, st', rd') => drive env rd' (f a st')
  | (inl e, st', rd') => (inl e, st', rd')
  end.
Proof.
  revert rd. induction r as [[e|a] st|st fut k IH|st k IH]; intros rd;
    cbn [bind_res drive]; try done.
  - destruct (read rd (env st) st) as [rd' st']. apply IH.
  - destruct (read rd (env st) st) as [rd' st']. apply IH.
Qed.

Lemma drive_catch {A} env rd (r : res A) handler :
  drive env rd (catch_res r handler) =
  match drive env rd r with
  | (inr a, st', rd') => (inr a, st', rd')
  | (inl e, st', rd') =>
      match handler e with
      | Some h => drive env rd' (h st')
      | None => (inl e, st', rd')
      end
  end.
Proof.
  revert rd. induction r as [[e|a] st|st fut k IH|st k IH]; intros rd;
    cbn [catch_res drive]; try done.
  - by destruct (handler e).
  - destruct (read rd (env st) st) as [rd' st']. apply IH.
  - destruct (read rd (env st) st) as [rd' st']. apply IH.
Qed.

(** A call answered with an error returns that Response as its result. *)
Lemma drive_send_command error now method params st :
  connected st →
  ∃ st',
    drive (error_reply error now) Reading (send_command method params st) =
      (inr (error_response error (message_id st + 1)), st', Reading) ∧
    settled st' ∧ redis_published st' = redis_published st.
Proof.
  intros Hconn.
  destruct (send_command_connected method params st Hconn) as (k & -> & Hk).
  cbn [drive read error_reply handle_messages]. run_coro.
  unfold error_response.
  rewrite (handle_response now (message_id st + 1) (List.length (futures st)));
    [|apply lookup_insert_eq|by cbn; rewrite lookup_app_r, Nat.sub_diag].
  run_coro. cbn [futures resolved registered enrolled set_pending_commands
                 set_futures set_ws_sent set_message_id].
  rewrite list_lookup_insert_eq by (rewrite length_app; cbn; lia).
  rewrite Hk. cbn [resume drive]. eexists. split; [reflexivity|].
  destruct Hconn as [url Hconn]. split; [split|done].
  - by exists url.
  - cbn. apply lookup_delete_eq.
Qed.

(** While the task sleeps, the answer to a request that is no longer in
    the table arrives unnoticed. *)
Lemma read_settled error now st :
  settled st → read Reading (error_reply error now st) st = (Reading, st).
Proof.
  intros [_ Habs]. cbn [read error_reply handle_messages]. run_coro.
  unfold error_response.
  rewrite (late_response now _ (JInt (message_id st))); [done..|].
  by exists (Some (message_id st)).
Qed.

Lemma drive_type_chars error now chars st :
  connected st →
  ∃ st',
    drive (error_reply error now) Reading (type_chars chars st) =
      (inr (), st', Reading) ∧
    connected st' ∧ redis_published st' = redis_published st.
Proof.
  revert st. induction chars as [|char chars IH]; intros st Hconn.
  - by eexists.
  - cbn [type_chars]. run_coro. rewrite drive_bind.
    destruct (drive_send_command error now "Input.dispatchKeyEvent"
                (JObj [("type", JStr "keyDown"); ("text", char)]) st Hconn)
      as (st1 & -> & [Hconn1 _] & Hpub1).
    rewrite drive_bind.
    destruct (drive_send_command error now "Input.dispatchKeyEvent"
                (JObj [("type", JStr "keyUp"); ("text", char)]) st1 Hconn1)
      as (st2 & -> & Hset2 & Hpub2).
    unfold sleep. cbn [bind_res drive]. rewrite (read_settled _ _ _ Hset2).
    destruct (IH st2 (proj1 Hset2)) as (st' & -> & Hconn' & Hpub').
    eexists. split_and!; [done..|]. congruence.
Qed.

(** What the [if/elif] chain yields when every call is answered with an
    error. *)
Lemma drive_run_action error now fields action st :
  connected st →
  Py.assoc "action" fields = Some (JStr action) →
  action ∈ Spec.recognized →
  (action = "type" →
   ∃ chars, Py.iter (default (JStr "") (Py.assoc "text" fields)) = inr chars) →
  ∃ st' result,
    drive (error_reply error now) Reading
      (run_action (JObj fields) (JStr action) (result_of fields false) st) =
      (inr result, st', Reading) ∧
    redis_published st' = redis_published st ∧
    Py.assoc "session_id" result = Some (default JNull (Py.assoc "session_id" fields)) ∧
    Py.assoc "success" result = Some (JBool true) ∧
    Py.assoc "error" result = None.
Proof.
  intros Hconn Haction Hin Htext. unfold Spec.recognized in Hin.
  repeat (apply elem_of_cons in Hin as [->|Hin]); [..|by apply elem_of_nil in Hin];
    unfold run_action; pick_action; rewrite ?get_default; run_coro.
  - (* navigate *)
    unfold navigate. rewrite drive_bind.
    destruct (drive_send_command error now "Page.navigate"
                (JObj [("url", default JNull (Py.assoc "url" fields))]) st Hconn)
      as (st' & -> & _ & Hpub).
    by eexists _, _.
  - (* screenshot *)
    unfold screenshot. run_coro. rewrite !drive_bind.
    destruct (drive_send_command error now "Page.captureScreenshot"
                (JObj [("format", JStr "png"); ("quality", JInt 80)]) st Hconn)
      as (st' & -> & _ & Hpub).
    by eexists _, _.
  - (* click *)
    unfold click. run_coro. rewrite !drive_bind.
    destruct (drive_send_command error now "Input.dispatchMouseEvent"
                (mouse_event "mousePressed"
                   (default (JInt 0) (Py.assoc "x" fields))
                   (default (JInt 0) (Py.assoc "y" fields))) st Hconn)
      as (st1 & Hd1 & [Hconn1 _] & Hpub1).
    unfold mouse_event in Hd1. rewrite Hd1. rewrite !drive_bind.
    destruct (drive_send_command error now "Input.dispatchMouseEvent"
                (mouse_event "mouseReleased"
                   (default (JInt 0) (Py.assoc "x" fields))
                   (default (JInt 0) (Py.assoc "y" fields))) st1 Hconn1)
      as (st2 & Hd2 & _ & Hpub2).
    unfold mouse_event in Hd2. rewrite Hd2.
    eexists _, _. split_and!; [done| |done..]. congruence.
  - (* type *)
    destruct Htext as [chars Hchars]; [done|].
    unfold type_text. rewrite Hchars. run_coro. rewrite drive_bind.
    destruct (drive_type_chars error now chars st Hconn) as (st' & -> & _ & Hpub).
    by eexists _, _.
  - (* evaluate *)
    unfold evaluate. run_coro. rewrite !drive_bind.
    destruct (drive_send_command error now "Runtime.evaluate"
                (evaluation (default (JStr "") (Py.assoc "expression" fields)))
                st Hconn) as (st' & Hd & _ & Hpub).
    unfold evaluation in Hd. rewrite Hd.
    by eexists _, _.
  - (* get_url *)
    unfold evaluate. run_coro. rewrite !drive_bind.
    destruct (drive_send_command error now "Runtime.evaluate"
                (evaluation (JStr "window.location.href")) st Hconn)
      as (st' & Hd & _ & Hpub).
    unfold evaluation in Hd. rewrite Hd.
    by eexists _, _.
Qed.

(** C9: a Response that carries an error payload resolves the Pending
    Request it matches like any other Response: the read loop stores the
    whole frame as the result of the future and deletes the entry, and the
    waiting call returns that frame.  So when the browser answers every
    call of a recognized action with an error, the derived operation
    completes and the dispatcher publishes the Command Result with
    success=true and no error field. *)
Theorem C9_error_response_is_success error now :
  (∀ m fut payload st,
     pending_commands st !! m = Some fut →
     futures st !! fut = Some FPending →
     handle_messages_iter now
       (RecvMessage (Text (JObj (("id", JInt m) :: payload)))) st =
     Done (inr Continue) (resolved m fut (JObj (("id", JInt m) :: payload)) st)) ∧
  (∀ method params st, connected st →
     ∃ st', drive (error_reply error now) Reading (send_command method params st) =
            (inr (error_response error (message_id st + 1)), st', Reading)) ∧
  (∀ fields action st,
     connected st →
     Py.assoc "action" fields = Some (JStr action) →
     action ∈ Spec.recognized →
     (action = "type" →
      ∃ chars, Py.iter (default (JStr "") (Py.assoc "text" fields)) = inr chars) →
     ∃ st' result,
       drive (error_reply error now) Reading (process_command (JObj fields) st) =
         (inr (), st', Reading) ∧
       redis_published st' =
         (redis_published st ++ [(reply_channel fields, JObj result)])%list ∧
       Py.assoc "success" result = Some (JBool true) ∧
       Py.assoc "error" result = None).
Proof.
  split_and!.
  - intros. by apply handle_response.
  - intros method params st Hconn.
    destruct (drive_send_command error now method params st Hconn)
      as (st' & ? & _). by exists st'.
  - intros fields action st Hconn Haction Hin Htext.
    unfold process_command. rewrite !get_default, Haction. run_coro.
    rewrite drive_bind, drive_catch.
    destruct (drive_run_action error now fields action st Hconn Haction Hin Htext)
      as (st' & result & Hd & Hpub & _ & Hsucc & Herr).
    unfold result_of in Hd. cbn [from_option id]. rewrite Hd. cbn [drive].
    eexists _, result. split_and!; [done| |done..].
    cbn. by rewrite Hpub.
Qed.

(** ** Concurrency of calls and of commands *)

Lemma all_waiting_issue method params s :
  all_waiting s → all_waiting (step (Issue method params) s).
Proof.
  intros [Hconn Hid Hfut Hsize Hfresh Hcalls]. cbn [step].
  destruct (send_command_connected method params (sys_state s) Hconn)
    as (k & -> & Hk).
  cbn [final]. split; cbn [sys_state sys_calls]; cbn.
  - destruct Hconn as [url Hconn]. by exists url.
  - rewrite length_app, Hid. cbn. lia.
  - rewrite !length_app, Hfut. done.
  - rewrite map_size_insert_None by (apply Hfresh; lia).
    rewrite length_app, Hsize. cbn. lia.
  - intros m Hm. rewrite lookup_insert_ne by lia. apply Hfresh. lia.
  - intros i c [Hi|[Hge Hi]]%lookup_app_Some.
    + destruct (Hcalls _ _ Hi) as (? & ? & Hp & Hf).
      assert (i < List.length (sys_calls s))%nat by (by eapply lookup_lt_Some).
      split_and!; [done..| |].
      * rewrite lookup_insert_ne by lia. done.
      * rewrite lookup_app_l by lia. done.
    + apply list_lookup_singleton_Some in Hi as [Hi <-].
      assert (i = List.length (sys_calls s)) as -> by lia. cbn.
      split_and!.
      * rewrite Hid. done.
      * rewrite Hfut. by eexists _, _.
      * rewrite <- Hid, Hfut. apply lookup_insert_eq.
      * rewrite <- Hfut. by rewrite lookup_app_r, Nat.sub_diag.
Qed.

Lemma all_waiting_exec requests s :
  all_waiting s → all_waiting (exec (issue <$> requests) s).
Proof.
  revert s. induction requests as [|[method params] requests IH]; intros s Hs;
    [done|].
  rewrite fmap_cons, exec_cons. by apply IH, all_waiting_issue.
Qed.

Lemma exec_issue_length requests s :
  List.length (sys_calls (exec (issue <$> requests) s)) =
  (List.length (sys_calls s) + List.length requests)%nat.
Proof.
  revert s. induction requests as [|[method params] requests IH]; intros s;
    [cbn; lia|].
  rewrite fmap_cons, exec_cons, IH. cbn. rewrite length_app. cbn. lia.
Qed.

Lemma lockstep_bind {A B} base (r : res A) (f : A → coro B) :
  lockstep base r →
  (∀ a st, lockstep (ws_sent st) (f a st)) →
  lockstep base (bind_res r f).
Proof.
  intros Hr Hf.
  induction Hr as [base [e|a] st Hst|base st fut k id method params Hst Hp _ IH
                  |base st k Hst _ IH]; cbn [bind_res].
  - by constructor.
  - subst base. apply Hf.
  - by econstructor.
  - by constructor.
Qed.

Lemma lockstep_catch {A} base (r : res A) handler :
  lockstep base r →
  (∀ e h st, handler e = Some h → lockstep (ws_sent st) (h st)) →
  lockstep base (catch_res r handler).
Proof.
  intros Hr Hh.
  induction Hr as [base [e|a] st Hst|base st fut k id method params Hst Hp _ IH
                  |base st k Hst _ IH]; cbn [catch_res].
  - destruct (handler e) as [h|] eqn:He; [|by constructor].
    subst base. by eapply Hh.
  - by constructor.
  - by econstructor.
  - by constructor.
Qed.

Lemma lockstep_send_command method params st :
  lockstep (ws_sent st) (send_command method params st).
Proof.
  destruct (ws_connection st) as [[url [reason|]]|] eqn:Hws.
  - rewrite (send_command_closed _ _ _ _ _ Hws). by constructor.
  - destruct (send_command_connected method params st) as (k & -> & Hk);
      [by eexists|].
    econstructor; [reflexivity|apply lookup_insert_eq|]. intros w st'.
    rewrite Hk.
    destruct w; cbn [resume]; [by constructor|].
    destruct (pending_commands st' !! _); by constructor.
  - rewrite (send_command_not_connected _ _ _ Hws). by constructor.
Qed.

Ltac lockstep_auto :=
  cbv beta;
  lazymatch goal with
  | |- lockstep _ (Done _ _) => by constructor
  | |- lockstep _ (send_command _ _ _) => apply lockstep_send_command
  | |- lockstep _ (bind_res _ _) =>
      apply lockstep_bind; [lockstep_auto | intros ? ?; lockstep_auto]
  | |- lockstep _ (match ?x with _ => _ end) => destruct x; lockstep_auto
  | _ => idtac
  end.

Lemma lockstep_type_chars chars st : lockstep (ws_sent st) (type_chars chars st).
Proof.
  revert st. induction chars as [|char chars IH]; intros st; cbn [type_chars].
  - by constructor.
  - unfold sleep. run_coro. lockstep_auto.
    constructor; [done|]. intros st3. apply IH.
Qed.

Lemma lockstep_run_action command action result st :
  lockstep (ws_sent st) (run_action command action result st).
Proof.
  unfold run_action.
  repeat match goal with
         | |- context [if Py.eq_str ?a ?s then _ else _] =>
             destruct (Py.eq_str a s)
         end;
    unfold navigate, screenshot, click, type_text, evaluate;
    run_coro; lockstep_auto; apply lockstep_type_chars.
Qed.

Lemma lockstep_process_command command st :
  lockstep (ws_sent st) (process_command command st).
Proof.
  unfold process_command. run_coro. lockstep_auto.
  apply lockstep_catch; [apply lockstep_run_action|].
  intros e h st3 [= <-]. by constructor.
Qed.

Lemma lockstep_listen_loop deliveries st :
  lockstep (ws_sent st) (listen_loop deliveries st).
Proof.
  revert st. induction deliveries as [|[data|] deliveries IH]; intros st;
    cbn [listen_loop]; [by constructor| |apply IH].
  run_coro. apply lockstep_bind; [|intros _ st1; apply IH].
  apply lockstep_catch.
  - destruct data; run_coro; [apply lockstep_process_command|by constructor].
  - intros e h st1 [= <-]. by constructor.
Qed.

Lemma handle_messages_total inbound st :
  ∃ rd st', handle_messages inbound st = Done (inr rd) st'.
Proof.
  revert st. induction inbound as [|[now r] inbound IH]; intros st;
    cbn [handle_messages]; [by eexists _, _|].
  run_coro.
  destruct (handle_messages_iter_spec now r st) as (x & st' & -> & _).
  run_coro. destruct x; [apply IH|by eexists _, _].
Qed.

(** C8 (as the code has it): [send_command] allows any number of
    invocations at once on one session: started back to back, all of them
    are suspended together, each on its own request id and its own Pending
    Request.  The read loop handles the frames that arrive without ever
    suspending, so it never waits for a call to be resolved.  The
    dispatcher, however, is one task that awaits each command before it
    takes the next: between two of its suspensions it writes exactly one
    request frame, the one it then waits for, so a sub-call is issued only
    after the previous one was resolved or timed out, and External
    Commands run one at a time. *)
Theorem C8_concurrent_calls_sequential_commands :
  (∀ url (requests : list (string * json)),
     let s := exec (issue <$> requests) (boot url) in
     size (pending_commands (sys_state s)) = List.length requests ∧
     ∀ i, (i < List.length requests)%nat →
       ∃ c st k,
         sys_calls s !! i = Some c ∧ call_id c = Z.of_nat i + 1 ∧
         call_task c = Await st i k ∧
         pending_commands (sys_state s) !! (Z.of_nat i + 1) = Some i ∧
         futures (sys_state s) !! i = Some FPending) ∧
  (∀ inbound st, ∃ rd st', handle_messages inbound st = Done (inr rd) st') ∧
  (∀ deliveries st, lockstep (ws_sent st) (listen_for_commands deliveries st)).
Proof.
  split_and!.
  - intros url requests s.
    assert (Hs : all_waiting s).
    { apply all_waiting_exec. split; try done. by eexists. }
    assert (Hlen : List.length (sys_calls s) = List.length requests)
      by (unfold s; by rewrite exec_issue_length).
    destruct Hs as [_ _ _ Hsize _ Hcalls]. split; [congruence|].
    intros i Hi.
    destruct (lookup_lt_is_Some_2 (sys_calls s) i) as [c Hc]; [lia|].
    destruct (Hcalls _ _ Hc) as (? & (st & k & ?) & ? & ?).
    by exists c, st, k.
  - apply handle_messages_total.
  - intros deliveries st. unfold listen_for_commands. run_coro.
    exact (lockstep_listen_loop deliveries (say _ st)).
Qed.

Lemma C8_concurrent_calls_sequential_commands_witness :
  let s := exec (issue <$> [("Page.enable", JNull); ("Network.enable", JNull)])
                (boot (JStr "ws://h/1")) in
  ∃ c st k,
    sys_calls s !! 1%nat = Some c ∧ call_id c = 2 ∧
    call_task c = Await st 1 k ∧
    pending_commands (sys_state s) !! 2 = Some 1%nat ∧
    futures (sys_state s) !! 1%nat = Some FPending.
Proof.
  refine (proj2 (proj1 C8_concurrent_calls_sequential_commands
                   (JStr "ws://h/1")
                   [("Page.enable", JNull); ("Network.enable", JNull)])
            1%nat _).
  cbn. lia.
Defined.

(** C8, the claim as stated, fails: with two External Commands delivered,
    the dispatcher suspends with only the first command's request written
    and one Pending Request; the second command's request is written only
    once the first call has been resumed -- here by its timeout, after the
    first command's result was published. *)
Lemma C8_second_command_waits :
  ∃ st1 k st2 k2,
    listen_for_commands two_commands (session (JStr "ws://h/1")) = Await st1 0 k ∧
    ws_sent st1 = [request 1 "Page.navigate" (JObj [("url", JStr "https://a")])] ∧
    size (pending_commands st1) = 1%nat ∧
    redis_published st1 = [] ∧
    k TimedOut st1 = Await st2 1 k2 ∧
    ws_sent st2 = [request 1 "Page.navigate" (JObj [("url", JStr "https://a")]);
                   request 2 "Page.navigate" (JObj [("url", JStr "https://b")])] ∧
    redis_published st2 =
      [(Fmt "browser:result:" (JStr "s1"),
        JObj [("session_id", JStr "s1"); ("success", JBool false);
              ("error", JStr "Command Page.navigate timed out")])].
Proof.
  eexists _, _, _, _. split_and!; vm_compute; reflexivity.
Qed.

(** ** Instances and counterexamples *)

Lemma C2_correlation_witness :
  let s := exec out_of_order (boot (JStr "ws://h/1")) in
  ∃ c c' frame frame' data st',
    sys_calls s !! 0%nat = Some c ∧ sys_calls s !! 1%nat = Some c' ∧
    ws_sent (sys_state s) !! 0%nat = Some frame ∧
    ws_sent (sys_state s) !! 1%nat = Some frame' ∧
    call_task c = Done (inr data) st' ∧
    call_id c = 1 ∧
    call_id c < call_id c' ∧
    (∃ m m', response_id frame = Some m ∧ response_id frame' = Some m' ∧ m < m') ∧
    response_id data = Some (call_id c).
Proof.
  intros s.
  destruct (C2_correlation (JStr "ws://h/1") out_of_order)
    as (Hid & Hlt & Hwire & Hresp).
  eexists _, _, _, _, _, _.
  assert (Hc : sys_calls s !! 0%nat = Some _) by (vm_compute; reflexivity).
  assert (Hc' : sys_calls s !! 1%nat = Some _) by (vm_compute; reflexivity).
  assert (Hf : ws_sent (sys_state s) !! 0%nat = Some _) by (vm_compute; reflexivity).
  assert (Hf' : ws_sent (sys_state s) !! 1%nat = Some _) by (vm_compute; reflexivity).
  split_and!; [exact Hc|exact Hc'|exact Hf|exact Hf'|reflexivity|..].
  - exact (Hid 0%nat _ Hc).
  - exact (Hlt 0%nat 1%nat _ _ Hc Hc' (Nat.lt_0_succ 0)).
  - exact (Hwire 0%nat 1%nat _ _ (Nat.lt_0_succ 0) Hf Hf').
  - exact (Hresp 0%nat _ _ _ Hc eq_refl).
Defined.

Lemma C5_late_response_discarded_witness :
  handle_messages_iter "t" (RecvMessage (Text (JObj late_fields))) one_outstanding =
  Done (inr Continue) one_outstanding.
Proof.
  apply (C5_late_response_discarded "t" late_fields (JInt 7) one_outstanding).
  - reflexivity.
  - exists (Some 7). split; [reflexivity|]. vm_compute. reflexivity.
Defined.

(** C5, the claim as stated, fails: handling a late Response prints
    nothing, so no warning is given. *)
Lemma C5_no_warning :
  stdout one_outstanding = [] ∧
  stdout (final (handle_messages_iter "t" (RecvMessage (Text (JObj late_fields)))
                   one_outstanding)) = [].
Proof. split; vm_compute; reflexivity. Qed.

(** C1, the claim as stated, fails: after the connection is lost with one
    call outstanding, the read loop has stopped and the call's entry is
    still in the table with its future still pending: nothing resolved it. *)
Lemma C1_pending_request_survives :
  ∃ st',
    handle_messages [("t", RecvClosed "no close frame received or sent")]
      one_outstanding = Done (inr Stopped) st' ∧
    pending_commands st' !! 1 = Some 0%nat ∧
    futures st' !! 0%nat = Some FPending.
Proof.
  eexists. split_and!; vm_compute; reflexivity.
Qed.

Lemma C6_target_selection_witness :
  connect_to_browser
    (inr (JArr [JObj [("type", JStr "other"); ("webSocketDebuggerUrl", JStr "ws://h/0")];
                JObj [("type", JStr "page")]]))
    (fun _ => None) init =
  Done (inr false) (say (Lit "No WebSocket URL found") init).
Proof.
  exact (proj1 (proj2 (proj2 C6_target_selection))
           [[("type", JStr "other"); ("webSocketDebuggerUrl", JStr "ws://h/0")];
            [("type", JStr "page")]]
           [("type", JStr "page")] (fun _ => None) init eq_refl eq_refl).
Defined.

(** The example of the specification: the discovery endpoint returns one
    page target and the bridge connects to its address. *)
Example connect_example :
  connect_to_browser
    (inr (JArr [JObj [("type", JStr "page");
                      ("webSocketDebuggerUrl", JStr "ws://h/1")]]))
    (fun _ => None) init =
  Done (inr true)
    (say (Fmt "Connected to browser: " (JStr "ws://h/1"))
       (session (JStr "ws://h/1"))).
Proof. reflexivity. Qed.

Lemma C9_error_response_is_success_witness :
  handle_messages_iter "t"
    (RecvMessage (Text (error_response (JObj [("message", JStr "boom")]) 1)))
    one_outstanding =
  Done (inr Continue)
    (resolved 1 0 (error_response (JObj [("message", JStr "boom")]) 1)
       one_outstanding) ∧
  (∃ st', drive (error_reply (JObj [("message", JStr "boom")]) "t") Reading
            (send_command "Page.enable" JNull (session (JStr "ws://h/1"))) =
          (inr (error_response (JObj [("message", JStr "boom")]) 1), st', Reading)) ∧
  ∃ st' result,
    drive (error_reply (JObj [("message", JStr "boom")]) "t") Reading
      (process_command
         (JObj [("action", JStr "screenshot"); ("session_id", JStr "s1")])
         (session (JStr "ws://h/1"))) = (inr (), st', Reading) ∧
    redis_published st' =
      [(Fmt "browser:result:" (JStr "s1"), JObj result)] ∧
    Py.assoc "success" result = Some (JBool true) ∧
    Py.assoc "error" result = None.
Proof.
  destruct (C9_error_response_is_success (JObj [("message", JStr "boom")]) "t")
    as (Hread & Hcall & Hcommand).
  split_and!.
  - apply (Hread 1 0%nat [("error", JObj [("message", JStr "boom")])]
             one_outstanding); vm_compute; reflexivity.
  - apply (Hcall "Page.enable" JNull (session (JStr "ws://h/1"))). by eexists.
  - refine (Hcommand
              [("action", JStr "screenshot"); ("session_id", JStr "s1")]
              "screenshot" (session (JStr "ws://h/1")) _ eq_refl _ _).
    + by eexists.
    + repeat constructor.
    + discriminate.
Defined.

Lemma C10_missing_parameters_witness :
  (∃ k1,
     process_command (JObj [("action", JStr "click"); ("session_id", JStr "s1")])
       (session (JStr "ws://h/1")) =
     Await (registered "Input.dispatchMouseEvent"
              (mouse_event "mousePressed" (JInt 0) (JInt 0))
              (session (JStr "ws://h/1"))) 0 k1 ∧
     ∃ k2,
       k1 (Resolved (JObj [("id", JInt 1); ("result", JObj [])]))
          (session (JStr "ws://h/2")) =
       Await (registered "Input.dispatchMouseEvent"
                (mouse_event "mouseReleased" (JInt 0) (JInt 0))
                (session (JStr "ws://h/2"))) 0 k2) ∧
  process_command (JObj [("action", JStr "type"); ("session_id", JStr "s1")])
    (session (JStr "ws://h/1")) =
  Done (inr ())
    (publish (Fmt "browser:result:" (JStr "s1"))
       (JObj [("session_id", JStr "s1"); ("success", JBool true)])
       (session (JStr "ws://h/1"))) ∧
  (∃ k,
     process_command (JObj [("action", JStr "evaluate"); ("session_id", JStr "s1")])
       (session (JStr "ws://h/1")) =
     Await (registered "Runtime.evaluate" (evaluation (JStr ""))
              (session (JStr "ws://h/1"))) 0 k).
Proof.
  split_and!.
  - destruct (proj1 (C10_missing_parameters
                       [("action", JStr "click"); ("session_id", JStr "s1")]
                       (session (JStr "ws://h/1")))
                eq_refl eq_refl eq_refl) as (k1 & H1 & H2); [by eexists|].
    exists k1. split; [exact H1|].
    destruct (H2 (JObj [("id", JInt 1); ("result", JObj [])])
                (session (JStr "ws://h/2"))) as (k2 & H3 & _); [by eexists|].
    by exists k2.
  - exact (proj1 (proj1 (proj2 (C10_missing_parameters
                           [("action", JStr "type"); ("session_id", JStr "s1")]
                           (session (JStr "ws://h/1"))))
                    eq_refl eq_refl)).
  - exact (proj2 (proj2 (C10_missing_parameters
                           [("action", JStr "evaluate"); ("session_id", JStr "s1")]
                           (session (JStr "ws://h/1"))))
             eq_refl eq_refl (ex_intro _ (JStr "ws://h/1") eq_refl)).
Defined.

(** The examples of the specification.  A call sent as request 7 and
    answered by [{"id": 7, "result": {}}] returns that Response. *)
Example call_example :
  (drive answers_seven Reading
     (send_command "Page.navigate" (JObj [("url", JStr "https://x")])
        (set_message_id 6 (session (JStr "ws://h/1"))))).1.1 =
  inr (JObj [("id", JInt 7); ("result", JObj [])]).
Proof. vm_compute. reflexivity. Qed.

(** A click whose release times out: both events were written, press
    first, and the Command Result for s1 has success=false and the text of
    the timeout. *)
Example click_example :
  let out := drive answers_first Reading
               (process_command
                  (JObj [("action", JStr "click"); ("session_id", JStr "s1");
                         ("x", JInt 10); ("y", JInt 20)])
                  (session (JStr "ws://h/1"))) in
  ws_sent out.1.2 =
    [request 1 "Input.dispatchMouseEvent" (mouse_event "mousePressed" (JInt 10) (JInt 20));
     request 2 "Input.dispatchMouseEvent" (mouse_event "mouseReleased" (JInt 10) (JInt 20))] ∧
  redis_published out.1.2 =
    [(Fmt "browser:result:" (JStr "s1"),
      JObj [("session_id", JStr "s1"); ("success", JBool false);
            ("error", JStr "Command Input.dispatchMouseEvent timed out")])].
Proof. split; vm_compute; reflexivity. Qed.

(** * Further properties of the controller *)

(** ** The read loop *)

(** X1: the read loop never raises and never suspends, and all it does to
    the correlation state is to complete futures that were pending and
    delete their entries: it allocates no id, writes no frame, creates no
    future, adds no entry, and leaves every future that was already done
    or cancelled as it was. *)
Theorem handle_messages_only_resolves inbound st :
  ∃ rd st',
    handle_messages inbound st = Done (inr rd) st' ∧
    message_id st' = message_id st ∧
    ws_sent st' = ws_sent st ∧
    List.length (futures st') = List.length (futures st) ∧
    pending_commands st' ⊆ pending_commands st ∧
    ∀ f, futures st !! f ≠ Some FPending → futures st' !! f = futures st !! f.
Proof.
  revert st. induction inbound as [|[now r] inbound IH]; intros st;
    cbn [handle_messages].
  { by eexists _, _. }
  run_coro.
  destruct (handle_messages_iter_spec now r st)
    as (x & st1 & -> & Hm & Hs & _ & _ & Hcases).
  run_coro.
  assert (Hstep : List.length (futures st1) = List.length (futures st) ∧
                  pending_commands st1 ⊆ pending_commands st ∧
                  ∀ f, futures st !! f ≠ Some FPending →
                       futures st1 !! f = futures st !! f).
  { destruct Hcases as [[-> ->]|(data & key & future & _ & _ & _ & Hpend & -> & ->)];
      [done|].
    split_and!; [by rewrite length_insert|apply delete_subseteq|].
    intros f Hf. rewrite list_lookup_insert_ne; [done|]. by intros ->. }
  destruct Hstep as (Hlen & Hsub & Hkeep).
  destruct x.
  - destruct (IH st1) as (rd & st' & -> & Hm' & Hs' & Hlen' & Hsub' & Hkeep').
    eexists _, _. split; [done|]. split_and!; [congruence..| |].
    + by etrans.
    + intros f Hf. rewrite Hkeep', Hkeep; [done..|]. by rewrite Hkeep.
  - by eexists _, _.
Qed.

Lemma handle_messages_app pre post st :
  handle_messages (pre ++ post) st =
  match handle_messages pre st with
  | Done (inr Reading) st' => handle_messages post st'
  | other => other
  end.
Proof.
  revert st. induction pre as [|[now r] pre IH]; intros st; [done|].
  cbn [app handle_messages]. run_coro.
  destruct (handle_messages_iter_spec now r st) as (x & st1 & -> & _).
  run_coro. destruct x; [apply IH|done].
Qed.

Lemma handle_messages_close now reason post st :
  ∃ st', handle_messages ((now, RecvClosed reason) :: post) st =
         Done (inr Stopped) st' ∧
         handle_messages [(now, RecvClosed reason)] st = Done (inr Stopped) st'.
Proof.
  cbn [handle_messages]. unfold handle_messages_iter, handle_messages_body.
  run_coro. by eexists.
Qed.

(** X2: the read loop leaves [while True] only when the connection is
    reported closed: frames of any other kind, decodable or not, objects
    or not, leave it reading; and once the close has been seen, nothing
    that arrives after it is handled. *)
Theorem handle_messages_stops_only_on_close :
  (∀ inbound st, no_close inbound →
     ∃ st', handle_messages inbound st = Done (inr Reading) st') ∧
  (∀ pre now reason post st,
     handle_messages (pre ++ (now, RecvClosed reason) :: post) st =
     handle_messages (pre ++ [(now, RecvClosed reason)]) st ∧
     ∃ st', handle_messages (pre ++ (now, RecvClosed reason) :: post) st =
            Done (inr Stopped) st').
Proof.
  split.
  - intros inbound st Hno. revert st.
    induction Hno as [|[now r] inbound Hr _ IH]; intros st; cbn [handle_messages].
    { by eexists. }
    run_coro.
    destruct (handle_messages_iter_spec now r st)
      as (x & st1 & -> & _ & _ & _ & Hbreak & _).
    run_coro. destruct x; [apply IH|].
    destruct (proj1 Hbreak eq_refl) as [reason ->]. by destruct (Hr reason).
  - intros pre now reason post st. rewrite !handle_messages_app.
    destruct (handle_messages_total pre st) as (rd & st1 & ->).
    destruct rd; [|by eauto].
    destruct (handle_messages_close now reason post st1) as (st' & -> & ->).
    by eauto.
Qed.

Lemma handle_messages_stops_only_on_close_witness :
  ∃ st', handle_messages
           [("t0", RecvMessage (Garbage "Expecting value: line 1 column 1 (char 0)"));
            ("t1", RecvMessage (Text (JArr [JStr "id"])));
            ("t2", RecvMessage (Text (JObj [("id", JArr [])])))]
           one_outstanding = Done (inr Reading) st'.
Proof.
  apply (proj1 handle_messages_stops_only_on_close).
  repeat constructor; intros reason; discriminate.
Defined.

(** X3: a Response is consumed exactly once: when it resolves a Pending
    Request, a second copy of the same frame is discarded without any
    effect, so delivering it twice is the same as delivering it once. *)
Theorem duplicate_response_ignored now now' m fut payload st :
  pending_commands st !! m = Some fut →
  futures st !! fut = Some FPending →
  let frame := RecvMessage (Text (JObj (("id", JInt m) :: payload))) in
  handle_messages [(now, frame); (now', frame)] st =
  handle_messages [(now, frame)] st ∧
  handle_messages [(now, frame)] st =
  Done (inr Reading) (resolved m fut (JObj (("id", JInt m) :: payload)) st).
Proof.
  intros Hm Hfut frame. cbn [handle_messages]. run_coro. unfold frame.
  rewrite (handle_response now m fut payload st Hm Hfut). run_coro.
  rewrite (late_response now' _ (JInt m)); [done|done|].
  exists (Some m). split; [done|]. cbn. apply lookup_delete_eq.
Qed.

Lemma duplicate_response_ignored_witness :
  let frame := RecvMessage (Text (JObj [("id", JInt 1); ("result", JObj [])])) in
  handle_messages [("t1", frame); ("t2", frame)] one_outstanding =
  handle_messages [("t1", frame)] one_outstanding ∧
  handle_messages [("t1", frame)] one_outstanding =
  Done (inr Reading)
    (resolved 1 0 (JObj [("id", JInt 1); ("result", JObj [])]) one_outstanding).
Proof.
  apply (duplicate_response_ignored "t1" "t2" 1 0%nat [("result", JObj [])]
           one_outstanding); vm_compute; reflexivity.
Defined.

(** ** The correlation table under every schedule *)

Lemma issue_state method params st :
  is_Some (ws_connection st) →
  let st' := final (send_command method params st) in
  message_id st' = message_id st + 1 ∧
  futures st' = (futures st ++ [FPending])%list ∧
  pending_commands st' =
    <[message_id st + 1 := List.length (futures st)]> (pending_commands st) ∧
  ws_connection st' = ws_connection st.
Proof.
  intros [[url [reason|]] Hws].
  - by rewrite (send_command_closed _ _ _ _ _ Hws).
  - destruct (send_command_connected method params st) as (k & -> & _);
      [by eexists|done].
Qed.

Lemma resume_timed_out_table method id future st :
  ∃ e st',
    resume method id future TimedOut st = Done (inl e) st' ∧
    ws_connection st' = ws_connection st ∧
    futures st' = <[future := FCancelled]> (futures st) ∧
    pending_commands st' = delete id (pending_commands st).
Proof.
  cbn [resume]. destruct (pending_commands st !! id) eqn:Hp;
    eexists _, _; (split; [reflexivity|]); cbn; split_and!; try done.
  by rewrite delete_id.
Qed.

Lemma sound_boot url : sound (boot url).
Proof. split_and!; [apply inv_boot|by intros m f H|done]. Qed.

Lemma sound_step ev s : sound s → sound (step ev s).
Proof.
  intros (Hinv & Htp & Hclosed).
  split; [by apply inv_step|]. unfold table_pending in Htp.
  destruct Hinv as [Hws Hid Hfut Hcalls Htable Hres Hwire Horder].
  destruct ev as [method params|now r|i|i]; cbn [step].
  - (* Issue *)
    destruct (issue_state method params (sys_state s) Hws) as (_ & Hf & Hp & Hw).
    cbn [sys_state sys_reader]. split.
    + unfold table_pending. intros m f. rewrite Hp, Hf.
      intros [[<- <-]|[_ H]]%lookup_insert_Some.
      * by rewrite lookup_app_r, Nat.sub_diag.
      * apply lookup_app_l_Some. by eapply Htp.
    + intros Hst. destruct (Hclosed Hst) as (url & reason & Hc).
      exists url, reason. by rewrite Hw.
  - (* Inbound *)
    destruct (sys_reader s) eqn:Hrd; [|by rewrite Hrd].
    destruct (handle_messages_iter_spec now r (sys_state s))
      as (x & st' & Heq & _ & _ & _ & Hbreak & Hcases).
    rewrite Heq. cbn [final sys_state sys_reader]. split.
    + destruct Hcases as [[Hp Hf]|(data & key & future & _ & Hkey & Hk & _ & Hf & Hp)];
        unfold table_pending; intros m f; rewrite Hp, Hf; [apply Htp|].
      intros [Hne H]%lookup_delete_Some.
      rewrite list_lookup_insert_ne; [by eapply Htp|].
      intros ->. apply Htable in H. apply Htable in Hk. lia.
    + destruct x; [done|]. intros _.
      destruct (proj1 Hbreak eq_refl) as [reason ->].
      destruct Hws as [[url c] Hws].
      revert Heq. unfold handle_messages_iter, handle_messages_body. run_coro.
      rewrite Hws. intros [= <-]. by exists url, reason.
  - (* Wake *)
    unfold resume_call.
    destruct (sys_calls s !! i) as [[id [| st0 fut k |]]|] eqn:Hi; try done.
    destruct (Hcalls _ _ Hi) as [_ [-> [method Hk]]].
    destruct (futures (sys_state s) !! i) as [[|data|]|] eqn:Hfi; try done.
    rewrite Hk. done.
  - (* Expire *)
    unfold resume_call.
    destruct (sys_calls s !! i) as [[id [| st0 fut k |]]|] eqn:Hi; try done.
    destruct (Hcalls _ _ Hi) as [_ [-> [method Hk]]].
    destruct (futures (sys_state s) !! i) as [[|data|]|] eqn:Hfi; try done;
      rewrite Hk; [|done].
    destruct (resume_timed_out_table method (Z.of_nat i + 1) i (sys_state s))
      as (e & st' & -> & Hw & Hf & Hp).
    cbn [final sys_state sys_reader]. split.
    + unfold table_pending. intros m f. rewrite Hp, Hf.
      intros [Hne H]%lookup_delete_Some.
      rewrite list_lookup_insert_ne; [by eapply Htp|].
      intros ->. apply Htable in H. lia.
    + intros Hst. destruct (Hclosed Hst) as (url & reason & Hc).
      exists url, reason. by rewrite Hw.
Qed.

Lemma sound_exec events s : sound s → sound (exec events s).
Proof.
  revert s. induction events as [|ev events IH]; intros s Hs; [done|].
  rewrite exec_cons. by apply IH, sound_step.
Qed.



Lemma leaked_step n ev s : sound s → leaked n s → leaked n (step ev s).
Proof.
  intros (Hinv & _ & _) (Hrd & (c & reason & st0 & Hn & Htask) & Hp & Hf).
  destruct Hinv as [Hws Hid Hfut Hcalls Htable Hres Hwire Horder].
  assert (Hlt : (n < List.length (sys_calls s))%nat) by (by eapply lookup_lt_Some).
  assert (Hkeep : ∀ i id st1 fut k r,
            sys_calls s !! i = Some (mkCall id (Await st1 fut k)) →
            ∃ c reason st, <[i := mkCall id r]> (sys_calls s) !! n = Some c ∧
                           call_task c = Done (inl (Exn ConnectionClosed reason)) st).
  { intros i id st1 fut k r Hi. exists c, reason, st0. split; [|done].
    rewrite list_lookup_insert_ne; [done|]. intros ->.
    rewrite Hn in Hi. injection Hi as ->. cbn in Htask. discriminate. }
  assert (Hsame : leaked n s) by (split_and!; eauto 10).
  destruct ev as [method params|now r|i|i]; cbn [step].
  - destruct (issue_state method params (sys_state s) Hws) as (_ & Hf' & Hp' & _).
    split_and!; cbn [sys_state sys_calls sys_reader]; [done| | |].
    + exists c, reason, st0. split; [by apply lookup_app_l_Some|done].
    + rewrite Hp', lookup_insert_ne by lia. done.
    + rewrite Hf'. by apply lookup_app_l_Some.
  - by rewrite Hrd.
  - unfold resume_call.
    destruct (sys_calls s !! i) as [[id [| st1 fut k |]]|] eqn:Hi; try done.
    destruct (Hcalls _ _ Hi) as [_ [-> [method Hk]]].
    destruct (futures (sys_state s) !! i) as [[|data|]|] eqn:Hfi; try done.
    rewrite Hk. cbn [resume final].
    split_and!; [done|by eapply Hkeep|done..].
  - unfold resume_call.
    destruct (sys_calls s !! i) as [[id [| st1 fut k |]]|] eqn:Hi; try done.
    destruct (Hcalls _ _ Hi) as [_ [-> [method Hk]]].
    assert (i ≠ n).
    { intros ->. rewrite Hn in Hi. injection Hi as ->. cbn in Htask. discriminate. }
    destruct (futures (sys_state s) !! i) as [[|data|]|] eqn:Hfi; try done;
      rewrite Hk.
    + destruct (resume_timed_out_table method (Z.of_nat i + 1) i (sys_state s))
        as (e & st' & -> & _ & Hf' & Hp').
      cbn [final]. split_and!; [done|by eapply Hkeep|..]; cbn [sys_state].
      * rewrite Hp', lookup_delete_ne by lia. done.
      * rewrite Hf'. by rewrite list_lookup_insert_ne.
    + cbn [resume final]. split_and!; [done|by eapply Hkeep|done..].
Qed.

Lemma leaked_exec n events s : sound s → leaked n s → leaked n (exec events s).
Proof.
  revert s. induction events as [|ev events IH]; intros s Hs Hl; [done|].
  rewrite exec_cons. apply IH; [by apply sound_step|by apply leaked_step].
Qed.

Lemma exec_app events1 events2 s :
  exec (events1 ++ events2) s = exec events2 (exec events1 s).
Proof. apply foldl_app. Qed.

(** X5: an invocation of [send_command] that starts after the read loop
    has seen the connection close fails at once with ConnectionClosed, but
    only after it has taken an id and put its Pending Request in the
    table; nothing removes that entry afterwards, whatever happens in the
    session: it stays in the table, its future pending, for good. *)
Theorem call_after_close_leaks url events1 now reason method params events2 :
  let s1 := exec (events1 ++ [Inbound now (RecvClosed reason)]) (boot url) in
  let n := List.length (sys_calls s1) in
  let s2 := exec (Issue method params :: events2) s1 in
  (∃ c reason' st, sys_calls s2 !! n = Some c ∧
                   call_id c = Z.of_nat n + 1 ∧
                   call_task c = Done (inl (Exn ConnectionClosed reason')) st) ∧
  pending_commands (sys_state s2) !! (Z.of_nat n + 1) = Some n ∧
  futures (sys_state s2) !! n = Some FPending.
Proof.
  intros s1 n s2.
  assert (Hs1 : sound s1) by apply sound_exec, sound_boot.
  assert (Hstopped : sys_reader s1 = Stopped).
  { unfold s1. rewrite exec_app.
    change (exec [?ev] ?s) with (step ev s). cbn [step].
    destruct (sys_reader (exec events1 (boot url))) eqn:Hrd; [|done].
    unfold handle_messages_iter, handle_messages_body. by run_coro. }
  destruct Hs1 as (Hinv & Htp & Hclosed).
  destruct (Hclosed Hstopped) as (u & reason' & Hws).
  assert (Hleak : leaked n (step (Issue method params) s1)).
  { cbn [step]. rewrite (send_command_closed _ _ _ _ _ Hws).
    cbn [final sys_state sys_calls]. split_and!; [done|..].
    - eexists _, reason', _. split.
      + cbn [sys_calls]. by rewrite lookup_app_r, Nat.sub_diag.
      + reflexivity.
    - unfold n. cbn. rewrite (inv_id _ Hinv), (inv_futures _ Hinv).
      apply lookup_insert_eq.
    - unfold n. cbn. rewrite <- (inv_futures _ Hinv).
      by rewrite lookup_app_r, Nat.sub_diag. }
  assert (Hs : sound (step (Issue method params) s1))
    by (by apply sound_step).
  unfold s2. rewrite exec_cons.
  destruct (leaked_exec n events2 _ Hs Hleak)
    as (_ & (c & r & st & Hc & Htask) & Hp & Hf).
  split_and!; [|done..].
  exists c, r, st. split_and!; [done| |done].
  destruct (sound_exec events2 _ Hs) as (Hinv2 & _ & _).
  by apply (inv_calls _ Hinv2).
Qed.

(** ** connect_to_browser and run *)

(** X6: [connect_to_browser] returns [True] only when the dial of a truthy
    address succeeded, and then the controller holds an open connection on
    exactly that address; whenever it returns [False], whatever the
    discovery reply or the failure was, it has printed one line and
    changed nothing else: the connection, the counter and the correlation
    table are as before. *)
Theorem connect_to_browser_outcomes discovery dial st :
  (∃ line, connect_to_browser discovery dial st = Done (inr false) (say line st)) ∨
  (∃ url, Py.truthy url = true ∧ dial url = None ∧
          connect_to_browser discovery dial st =
          Done (inr true)
            (say (Fmt "Connected to browser: " url)
               (set_ws_connection (Some (mkWs url None)) st))).
Proof.
  unfold connect_to_browser. run_coro.
  destruct discovery as [e|targets]; run_coro; [left; by eexists|].
  destruct (Py.truthy targets); run_coro; [|left; by eexists].
  destruct (Py.iter targets) as [e|items]; run_coro; [left; by eexists|].
  destruct (first_item targets) as [e|default]; run_coro; [left; by eexists|].
  destruct (next_page items default) as [e|page_target]; run_coro;
    [left; by eexists|].
  destruct (Py.get page_target "webSocketDebuggerUrl" JNull) as [e|ws_url];
    run_coro; [left; by eexists|].
  destruct (Py.truthy ws_url) eqn:Htruthy; run_coro; [|left; by eexists].
  destruct (dial ws_url) eqn:Hdial; run_coro; [left; by eexists|].
  right. by exists ws_url.
Qed.

Lemma asyncio_run_bind {A B} (r : res A) (f : A → coro B) :
  asyncio_run (bind_res r f) =
  match asyncio_run r with
  | (inr a, st') => asyncio_run (f a st')
  | (inl e, st') => (inl e, st')
  end.
Proof.
  induction r as [[e|a] st|st fut k IH|st k IH]; cbn [bind_res asyncio_run];
    try done; apply IH.
Qed.

(** The connect loop changes the connection and stdout only. *)
Lemma connect_loop_alone attempts st :
  ∃ st',
    message_id st' = message_id st ∧ ws_sent st' = ws_sent st ∧
    futures st' = futures st ∧ pending_commands st' = pending_commands st ∧
    redis_published st' = redis_published st ∧
    ((asyncio_run (connect_loop attempts st) = (inr false, st') ∧
      ws_connection st' = ws_connection st) ∨
     (asyncio_run (connect_loop attempts st) = (inr true, st') ∧ connected st')).
Proof.
  revert st. induction attempts as [|[discovery dial] attempts IH]; intros st;
    cbn [connect_loop att_discovery att_dial].
  { exists st. split_and!; try done. by left. }
  run_coro.
  destruct (connect_to_browser_outcomes discovery dial st)
    as [[line ->]|(url & _ & _ & ->)]; run_coro.
  - unfold sleep. cbn [bind_res asyncio_run].
    destruct (IH (say (Lit "Retrying connection in 5 seconds...") (say line st)))
      as (st' & ? & ? & ? & ? & ? & Hcases).
    exists st'. split_and!; [done..|].
    destruct Hcases as [[? ?]|[? ?]]; [left|right]; done.
  - exists (say (Fmt "Connected to browser: " url)
              (set_ws_connection (Some (mkWs url None)) st)).
    split_and!; [done..|]. right. split; [done|]. by exists url.
Qed.

(** X7: [run] awaits its three enable calls before [handle_messages] is
    started by [asyncio.gather], so no task is there to read the answer:
    as soon as a connection attempt succeeds, the call of Page.enable is
    written, waits out its timeout and raises out of [run].  [run] never
    reaches [asyncio.gather]: it is either still retrying to connect, with
    nothing written, or it has failed with "Command Page.enable timed
    out" after writing that one request. *)
Theorem run_never_gathers attempts st :
  ∃ st',
    (asyncio_run (run attempts st) = (inr Retrying, st') ∧
     ws_connection st' = ws_connection st ∧ ws_sent st' = ws_sent st) ∨
    (asyncio_run (run attempts st) =
       (inl (Exn Exception "Command Page.enable timed out"), st') ∧
     connected st' ∧
     ws_sent st' = (ws_sent st ++ [request (message_id st + 1) "Page.enable" JNull])%list ∧
     pending_commands st' = delete (message_id st + 1) (pending_commands st)).
Proof.
  unfold run, sleep. run_coro. cbn [asyncio_run]. rewrite asyncio_run_bind.
  destruct (connect_loop_alone attempts st)
    as (st1 & Hm & Hs & Hf & Hp & _ & [[-> Hws]|[-> Hconn]]).
  - exists st1. left. done.
  - destruct (send_command_connected "Page.enable" JNull st1 Hconn)
      as (k & Hsend & Hk).
    rewrite Hsend. cbn [bind_res asyncio_run].
    assert (futures (registered "Page.enable" JNull st1)
              !! List.length (futures st1) = Some FPending) as ->
      by (cbn; by rewrite lookup_app_r, Nat.sub_diag).
    rewrite Hk. cbn [resume].
    assert (pending_commands (registered "Page.enable" JNull st1)
              !! (message_id st1 + 1) = Some (List.length (futures st1))) as ->
      by apply lookup_insert_eq.
    cbn [bind_res asyncio_run]. eexists. right. split; [reflexivity|].
    split_and!.
    + destruct Hconn as [url Hconn]. by exists url.
    + cbn. by rewrite Hs, Hm.
    + cbn. by rewrite delete_insert_eq, Hp, Hm.
Qed.

(** ** The dispatcher *)

Lemma results_publish_event payload st :
  results (publish (Lit "browser:events") payload st) = results st.
Proof.
  unfold results, publish. cbn. rewrite List.filter_app. cbn.
  by rewrite app_nil_r.
Qed.

(** The read loop publishes on the events channel only. *)
Lemma handle_messages_iter_results now r st :
  results (final (handle_messages_iter now r st)) = results st.
Proof.
  unfold handle_messages_iter, handle_messages_body, handle_event,
    pending_contains, pending_getitem, pending_delitem, set_result.
  destruct r as [[data|error]|reason]; run_coro;
    [|done|by destruct (ws_connection st)].
  destruct data; cbn [Py.contains Py.getitem Py.get]; run_coro; try done;
    repeat first
      [ done
      | apply results_publish_event
      | progress run_coro
      | progress cbn [final]
      | progress simplify_eq
      | case_match ].
Qed.

Lemma handle_messages_results inbound st :
  results (final (handle_messages inbound st)) = results st.
Proof.
  revert st. induction inbound as [|[now r] inbound IH]; intros st; [done|].
  cbn [handle_messages]. run_coro.
  pose proof (handle_messages_iter_results now r st) as Hiter.
  destruct (handle_messages_iter_spec now r st) as (x & st1 & Heq & _).
  rewrite Heq in Hiter |- *. cbn [final] in Hiter. run_coro.
  destruct x; [by rewrite IH|done].
Qed.

Lemma read_results rd inbound st : results (read rd inbound st).2 = results st.
Proof.
  destruct rd; [|done]. cbn [read].
  pose proof (handle_messages_results inbound st) as H.
  destruct (handle_messages_total inbound st) as (rd' & st' & Heq).
  rewrite Heq in H |- *. done.
Qed.

Lemma ends_drive {A} (I : state → Prop) (Q : exn + A → state → Prop) r env rd :
  (∀ rd inbound st, I st → I (read rd inbound st).2) →
  ends I Q r → Q (drive env rd r).1.1 (drive env rd r).1.2.
Proof.
  intros Hstable Hr. revert rd.
  induction Hr as [x st HQ|st fut k HI _ IH|st k HI _ IH]; intros rd;
    cbn [drive]; [done|..].
  - pose proof (Hstable rd (env st) st HI) as HI'.
    destruct (read rd (env st) st) as [rd' st']. by apply IH.
  - pose proof (Hstable rd (env st) st HI) as HI'.
    destruct (read rd (env st) st) as [rd' st']. by apply IH.
Qed.

Lemma ends_bind {A B} I (Q : exn + B → state → Prop) (r : res A) (f : A → coro B) :
  ends I (fun x st => match x with
                      | inr a => ends I Q (f a st)
                      | inl e => Q (inl e) st
                      end) r →
  ends I Q (bind_res r f).
Proof.
  induction 1 as [[e|a] st HQ|st fut k HI _ IH|st k HI _ IH]; cbn [bind_res];
    [by constructor|done|by constructor..].
Qed.

Lemma ends_catch {A} I (Q : exn + A → state → Prop) (r : res A) handler :
  ends I (fun x st => match x with
                      | inr a => Q (inr a) st
                      | inl e => match handler e with
                                 | Some h => ends I Q (h st)
                                 | None => Q (inl e) st
                                 end
                      end) r →
  ends I Q (catch_res r handler).
Proof.
  induction 1 as [[e|a] st HQ|st fut k HI _ IH|st k HI _ IH]; cbn [catch_res];
    [|by constructor..].
  destruct (handler e); [done|by constructor].
Qed.

Lemma ends_mono {A} I (Q Q' : exn + A → state → Prop) (r : res A) :
  (∀ x st, Q x st → Q' x st) → ends I Q r → ends I Q' r.
Proof.
  intros HQ. induction 1; constructor; auto.
Qed.

(** A call publishes nothing, however it ends. *)
Lemma ends_send_command L (Q : exn + json → state → Prop) method params st :
  results st = L →
  (∀ x st', results st' = L → Q x st') →
  ends (fun s => results s = L) Q (send_command method params st).
Proof.
  intros HL HQ.
  destruct (ws_connection st) as [[url [reason|]]|] eqn:Hws.
  - rewrite (send_command_closed _ _ _ _ _ Hws). constructor. by apply HQ.
  - destruct (send_command_connected method params st) as (k & -> & Hk);
      [by eexists|].
    constructor; [done|]. intros w st' Hst'. rewrite Hk.
    destruct w; cbn [resume]; [constructor; by apply HQ|].
    destruct (pending_commands st' !! _); constructor; by apply HQ.
  - rewrite (send_command_not_connected _ _ _ Hws). constructor. by apply HQ.
Qed.

Ltac ends_auto :=
  cbv beta iota;
  lazymatch goal with
  | |- ends _ _ (Done (inl _) _) => apply ends_done; ends_auto
  | |- ends _ _ (Done (inr _) _) => apply ends_done; ends_auto
  | |- ends _ _ (Done ?x _) => destruct x; ends_auto
  | |- ends _ _ (send_command _ _ _) =>
      apply ends_send_command; [assumption|intros [?|?] ? ?; ends_auto]
  | |- ends _ _ (bind_res _ _) => apply ends_bind; ends_auto
  | |- ends _ _ (match ?x with _ => _ end) => destruct x; ends_auto
  | _ => idtac
  end.

Lemma ends_type_chars L (Q : exn + () → state → Prop) chars st :
  results st = L →
  (∀ x st', results st' = L → Q x st') →
  ends (fun s => results s = L) Q (type_chars chars st).
Proof.
  intros HL HQ. revert st HL.
  induction chars as [|char chars IH]; intros st HL; cbn [type_chars].
  - constructor. by apply HQ.
  - unfold sleep. run_coro. ends_auto; try (by apply HQ).
    constructor; [done|]. intros st2 Hst2. by apply IH.
Qed.

(** The shape of the [result] dict of a command with session id [sid]. *)
Lemma ends_run_action L sid fields action st :
  results st = L →
  ends (fun s => results s = L)
    (fun x s => results s = L ∧
                match x with
                | inr result => ∃ success rest,
                    result = ("session_id", sid) :: ("success", JBool success) :: rest
                | inl _ => True
                end)
    (run_action (JObj fields) action
       [("session_id", sid); ("success", JBool false)] st).
Proof.
  intros HL. unfold run_action.
  repeat match goal with
         | |- context [if Py.eq_str ?a ?s then _ else _] =>
             destruct (Py.eq_str a s)
         end;
    unfold navigate, screenshot, click, type_text, evaluate;
    rewrite ?get_default; run_coro; ends_auto;
    try (split; [assumption|]; first [done | by eexists _, _]).
  apply ends_type_chars; [done|].
  intros [e|[]] st' Hst'; [done|]. constructor. split; [done|]. by eexists _, _.
Qed.

Lemma results_publish_reply sid payload st :
  results (publish (Fmt "browser:result:" sid) payload st) =
  (results st ++ [(Fmt "browser:result:" sid, payload)])%list.
Proof. unfold results, publish. cbn. by rewrite List.filter_app. Qed.

Lemma ends_process_command fields st :
  ends (fun s => results s = results st)
    (fun x s => x = inr () ∧
                ∃ publication,
                  results s = (results st ++ [publication])%list ∧
                  publication.1 = reply_channel fields ∧
                  command_result publication)
    (process_command (JObj fields) st).
Proof.
  unfold process_command. rewrite !get_default. run_coro.
  apply ends_bind, ends_catch.
  eapply ends_mono; [|by apply (ends_run_action (results st))].
  intros [e|result] s [Hs Hshape]; cbn [except_Exception].
  - constructor. constructor. split; [done|].
    eexists. split_and!;
      [rewrite <- Hs; apply results_publish_reply|done|by eexists _, _, _].
  - constructor. split; [done|]. destruct Hshape as (success & rest & ->).
    eexists. split_and!;
      [rewrite <- Hs; apply results_publish_reply|done|by eexists _, _, _].
Qed.

(** X8: whatever the browser sends and whenever calls time out, a command
    that is a JSON object makes [process_command] return normally after
    publishing exactly one Command Result: it is on the reply channel of
    the command's session id and starts with that session id and a
    boolean success flag. *)
Theorem process_command_publishes_once env rd fields st :
  let out := drive env rd (process_command (JObj fields) st) in
  out.1.1 = inr () ∧
  ∃ publication,
    results out.1.2 = (results st ++ [publication])%list ∧
    publication.1 = reply_channel fields ∧
    command_result publication.
Proof.
  apply (ends_drive (fun s => results s = results st)
           (fun x s => x = inr () ∧
              ∃ publication,
                results s = (results st ++ [publication])%list ∧
                publication.1 = reply_channel fields ∧
                command_result publication)).
  - intros rd' inbound s Hs. by rewrite read_results.
  - apply ends_process_command.
Qed.

Lemma process_command_non_object v st :
  (∀ fields, v ≠ JObj fields) →
  process_command v st = Done (inl (Py.no_attribute v "get")) st.
Proof. intros Hv. destruct v; try done. by destruct (Hv fields). Qed.

Lemma listen_loop_results env rd deliveries st :
  let out := drive env rd (listen_loop deliveries st) in
  out.1.1 = inr () ∧
  ∃ new,
    results out.1.2 = (results st ++ new)%list ∧
    new.*1 = reply_channel <$> object_commands deliveries ∧
    Forall command_result new.
Proof.
  revert rd st. induction deliveries as [|[data|] deliveries IH]; intros rd st;
    cbn [listen_loop].
  - split; [done|]. exists []. by rewrite app_nil_r.
  - run_coro. rewrite drive_bind, drive_catch.
    destruct data as [v|error]; run_coro.
    + assert ((∃ fields, v = JObj fields) ∨ (∀ fields, v ≠ JObj fields))
        as [[fields ->]|Hno] by (destruct v; eauto).
      * destruct (process_command_publishes_once env rd fields st)
          as (Hx & publication & Hres & Hchan & Hshape).
        destruct (drive env rd (process_command (JObj fields) st))
          as [[x st1] rd1]. cbn in Hx, Hres. subst x.
        destruct (IH rd1 st1) as (Hx & new & Hres' & Hchans & Hall).
        split; [done|]. exists (publication :: new).
        rewrite Hres', Hres, <- app_assoc. split_and!; [done| |by constructor].
        cbn. by rewrite Hchan, Hchans.
      * rewrite process_command_non_object by done.
        cbn [drive except_Exception]. run_coro.
        assert (object_commands (BusMessage (Text v) :: deliveries) =
                object_commands deliveries) as ->
          by (destruct v; try done; by destruct (Hno fields)).
        apply (IH rd (say _ st)).
    + cbn [drive except_Exception]. run_coro.
      apply (IH rd (say _ st)).
  - apply IH.
Qed.

(** X9: under every schedule, [listen_for_commands] publishes one Command
    Result for each delivery that decodes to a JSON object, in the order
    of delivery and each on the reply channel of its own session id;
    deliveries of another type, undecodable texts and values that are not
    objects get no result (the last two are only printed), and none of
    them makes the listener raise. *)
Theorem listen_for_commands_one_result_each env rd deliveries st :
  let out := drive env rd (listen_for_commands deliveries st) in
  out.1.1 = inr () ∧
  ∃ new,
    results out.1.2 = (results st ++ new)%list ∧
    new.*1 = reply_channel <$> object_commands deliveries ∧
    Forall command_result new.
Proof.
  unfold listen_for_commands. run_coro.
  apply (listen_loop_results env rd deliveries (say _ st)).
Qed.

(** ** Commands whose calls are answered, or not *)

(** A call that is answered returns the Response, leaves no entry, and has
    written its request. *)
Lemma drive_send_command_reply env payload now method params st :
  connected st →
  env (registered method params st) =
    reply payload now (registered method params st) →
  ∃ st',
    drive env Reading (send_command method params st) =
      (inr (JObj (("id", JInt (message_id st + 1)) :: payload)), st', Reading) ∧
    settled st' ∧
    message_id st' = message_id st + 1 ∧
    ws_sent st' = (ws_sent st ++ [request (message_id st + 1) method params])%list ∧
    redis_published st' = redis_published st ∧
    stdout st' = stdout st.
Proof.
  intros Hconn Henv.
  destruct (send_command_connected method params st Hconn) as (k & -> & Hk).
  cbn [drive]. rewrite Henv. cbn [read reply handle_messages]. run_coro.
  rewrite (handle_response now (message_id st + 1) (List.length (futures st)));
    [|apply lookup_insert_eq|by cbn; rewrite lookup_app_r, Nat.sub_diag].
  run_coro. cbn [futures resolved registered enrolled set_pending_commands
                 set_futures set_ws_sent set_message_id].
  rewrite list_lookup_insert_eq by (rewrite length_app; cbn; lia).
  rewrite Hk. cbn [resume drive]. eexists. split; [reflexivity|].
  destruct Hconn as [url Hconn]. split_and!; try done.
  split; [by exists url|]. cbn. apply lookup_delete_eq.
Qed.

Lemma read_settled_reply payload now st :
  settled st → read Reading (reply payload now st) st = (Reading, st).
Proof.
  intros [_ Habs]. cbn [read reply handle_messages]. run_coro.
  rewrite (late_response now _ (JInt (message_id st))); [done..|].
  by exists (Some (message_id st)).
Qed.

(** A call that is never answered writes its request, waits out its
    timeout and raises, with its entry deleted. *)
Lemma drive_send_command_silent env rd method params st :
  connected st →
  env (registered method params st) = [] →
  ∃ st',
    drive env rd (send_command method params st) =
      (inl (Exn Exception ("Command " +:+ method +:+ " timed out")), st', rd) ∧
    connected st' ∧
    message_id st' = message_id st + 1 ∧
    ws_sent st' = (ws_sent st ++ [request (message_id st + 1) method params])%list ∧
    pending_commands st' = delete (message_id st + 1) (pending_commands st) ∧
    redis_published st' = redis_published st ∧
    stdout st' = stdout st.
Proof.
  intros Hconn Henv.
  destruct (send_command_connected method params st Hconn) as (k & -> & Hk).
  cbn [drive]. rewrite Henv.
  assert (read rd [] (registered method params st) =
          (rd, registered method params st)) as -> by (by destruct rd).
  assert (futures (registered method params st)
            !! List.length (futures st) = Some FPending) as ->
    by (cbn; by rewrite lookup_app_r, Nat.sub_diag).
  rewrite Hk. cbn [resume].
  assert (pending_commands (registered method params st)
            !! (message_id st + 1) = Some (List.length (futures st))) as ->
    by apply lookup_insert_eq.
  cbn [drive]. eexists. split; [reflexivity|].
  destruct Hconn as [url Hconn]. split_and!; try done.
  - by exists url.
  - cbn. by rewrite delete_insert_eq.
Qed.

(** If the first call of a command fails, the command is answered with
    that failure and nothing more is done. *)
Lemma first_call_fails env rd fields method params st e st1 rd1 :
  first_call fields = Some (method, params) →
  drive env rd (send_command method params st) = (inl e, st1, rd1) →
  drive env rd (process_command (JObj fields) st) =
    (inr (),
     publish (reply_channel fields)
       (JObj (result_of fields false ++ [("error", JStr (str_exn e))])) st1,
     rd1).
Proof.
  intros Hfirst Hfail. unfold first_call in Hfirst.
  unfold process_command. rewrite !get_default. run_coro.
  rewrite drive_bind, drive_catch. unfold run_action.
  repeat match type of Hfirst with
         | context [if Py.eq_str ?a ?s then _ else _] =>
             destruct (Py.eq_str a s)
         end; try discriminate;
    unfold navigate, screenshot, click, type_text, evaluate;
    rewrite ?get_default; run_coro.
  - injection Hfirst as <- <-. rewrite drive_bind, Hfail. done.
  - injection Hfirst as <- <-. rewrite !drive_bind, Hfail. done.
  - injection Hfirst as <- <-. unfold mouse_event in Hfail.
    rewrite !drive_bind, Hfail. done.
  - destruct (Py.iter _) as [|[|char chars]]; try discriminate.
    injection Hfirst as <- <-. cbn [type_chars]. run_coro.
    rewrite !drive_bind, Hfail. done.
  - injection Hfirst as <- <-. unfold evaluation in Hfail.
    rewrite !drive_bind, Hfail. done.
  - injection Hfirst as <- <-. unfold evaluation in Hfail.
    rewrite !drive_bind, Hfail. done.
Qed.

Lemma first_call_fails_at_once fields method params st e st1 :
  first_call fields = Some (method, params) →
  send_command method params st = Done (inl e) st1 →
  process_command (JObj fields) st =
    Done (inr ())
      (publish (reply_channel fields)
         (JObj (result_of fields false ++ [("error", JStr (str_exn e))])) st1).
Proof.
  intros Hfirst Hfail. unfold first_call in Hfirst.
  unfold process_command. rewrite !get_default. run_coro. unfold run_action.
  repeat match type of Hfirst with
         | context [if Py.eq_str ?a ?s then _ else _] =>
             destruct (Py.eq_str a s)
         end; try discriminate;
    unfold navigate, screenshot, click, type_text, evaluate;
    rewrite ?get_default; run_coro.
  - injection Hfirst as <- <-. rewrite Hfail. done.
  - injection Hfirst as <- <-. rewrite Hfail. done.
  - injection Hfirst as <- <-. unfold mouse_event in Hfail.
    rewrite Hfail. done.
  - destruct (Py.iter _) as [|[|char chars]]; try discriminate.
    injection Hfirst as <- <-. cbn [type_chars]. run_coro.
    rewrite Hfail. done.
  - injection Hfirst as <- <-. unfold evaluation in Hfail.
    rewrite Hfail. done.
  - injection Hfirst as <- <-. unfold evaluation in Hfail.
    rewrite Hfail. done.
Qed.

(** X10: when the browser never answers, a command that issues a call
    writes exactly one request, the first one of its action, and after the
    timeout is answered with success=false and the error "Command <method>
    timed out"; the calls that would have followed (the release of a
    click, the remaining keys) are never issued, and the timed-out request
    leaves no entry in the correlation table. *)
Theorem unanswered_command_times_out fields method params st :
  connected st →
  first_call fields = Some (method, params) →
  ∃ st',
    drive silent Reading (process_command (JObj fields) st) =
      (inr (), st', Reading) ∧
    redis_published st' =
      (redis_published st ++
       [(reply_channel fields,
         JObj (result_of fields false ++
               [("error", JStr ("Command " +:+ method +:+ " timed out"))]))])%list ∧
    ws_sent st' = (ws_sent st ++ [request (message_id st + 1) method params])%list ∧
    pending_commands st' = delete (message_id st + 1) (pending_commands st).
Proof.
  intros Hconn Hfirst.
  destruct (drive_send_command_silent silent Reading method params st Hconn eq_refl)
    as (st1 & Hfail & _ & _ & Hsent & Hpend & Hpub & _).
  rewrite (first_call_fails _ _ _ _ _ _ _ _ _ Hfirst Hfail).
  eexists. split; [reflexivity|]. cbn. by rewrite Hpub.
Qed.

Lemma unanswered_command_times_out_witness :
  ∃ st',
    drive silent Reading
      (process_command
         (JObj [("action", JStr "click"); ("session_id", JStr "s1");
                ("x", JInt 10); ("y", JInt 20)])
         (session (JStr "ws://h/1"))) = (inr (), st', Reading) ∧
    redis_published st' =
      [(Fmt "browser:result:" (JStr "s1"),
        JObj [("session_id", JStr "s1"); ("success", JBool false);
              ("error", JStr "Command Input.dispatchMouseEvent timed out")])] ∧
    ws_sent st' =
      [request 1 "Input.dispatchMouseEvent"
         (mouse_event "mousePressed" (JInt 10) (JInt 20))] ∧
    pending_commands st' = delete 1 ∅.
Proof.
  apply (unanswered_command_times_out
           [("action", JStr "click"); ("session_id", JStr "s1");
            ("x", JInt 10); ("y", JInt 20)]
           "Input.dispatchMouseEvent"
           (mouse_event "mousePressed" (JInt 10) (JInt 20))
           (session (JStr "ws://h/1"))).
  - by eexists.
  - reflexivity.
Defined.

(** X11: a command that issues a call while the controller has no
    connection is answered at once with success=false and the error "Not
    connected to browser"; no id is taken, nothing is written and the
    correlation table is not touched.  While the controller holds a
    connection that has been closed, such a command is answered with the
    reason of the close as its error, and each such command takes an id
    and leaves its Pending Request in the table. *)
Theorem command_without_connection fields method params st :
  first_call fields = Some (method, params) →
  (ws_connection st = None →
   process_command (JObj fields) st =
     Done (inr ())
       (publish (reply_channel fields)
          (JObj (result_of fields false ++
                 [("error", JStr "Not connected to browser")])) st)) ∧
  (∀ url reason, ws_connection st = Some (mkWs url (Some reason)) →
   process_command (JObj fields) st =
     Done (inr ())
       (publish (reply_channel fields)
          (JObj (result_of fields false ++ [("error", JStr reason)]))
          (enrolled st)) ∧
   pending_commands (enrolled st) !! (message_id st + 1) =
     Some (List.length (futures st))).
Proof.
  intros Hfirst. split.
  - intros Hws.
    apply (first_call_fails_at_once fields method params st
             (Exn Exception "Not connected to browser") st Hfirst).
    by apply send_command_not_connected.
  - intros url reason Hws. split; [|apply lookup_insert_eq].
    apply (first_call_fails_at_once fields method params st
             (Exn ConnectionClosed reason) (enrolled st) Hfirst).
    by eapply send_command_closed.
Qed.

Lemma command_without_connection_witness :
  process_command (JObj [("action", JStr "get_url"); ("session_id", JStr "s1")]) init =
  Done (inr ())
    (publish (Fmt "browser:result:" (JStr "s1"))
       (JObj [("session_id", JStr "s1"); ("success", JBool false);
              ("error", JStr "Not connected to browser")]) init) ∧
  process_command (JObj [("action", JStr "get_url"); ("session_id", JStr "s1")])
    (set_ws_connection (Some (mkWs (JStr "ws://h/1") (Some "going away"))) init) =
  Done (inr ())
    (publish (Fmt "browser:result:" (JStr "s1"))
       (JObj [("session_id", JStr "s1"); ("success", JBool false);
              ("error", JStr "going away")])
       (enrolled (set_ws_connection
                    (Some (mkWs (JStr "ws://h/1") (Some "going away"))) init))).
Proof.
  split.
  - exact (proj1 (command_without_connection
                    [("action", JStr "get_url"); ("session_id", JStr "s1")]
                    "Runtime.evaluate" (evaluation (JStr "window.location.href"))
                    init eq_refl) eq_refl).
  - exact (proj1 (proj2 (command_without_connection
                    [("action", JStr "get_url"); ("session_id", JStr "s1")]
                    "Runtime.evaluate" (evaluation (JStr "window.location.href"))
                    (set_ws_connection
                       (Some (mkWs (JStr "ws://h/1") (Some "going away"))) init)
                    eq_refl) (JStr "ws://h/1") "going away" eq_refl)).
Defined.

(** X12: when the browser answers with [{"id": .., "result": r}], a
    screenshot command reports [r.get("data", "")] as its data, and an
    evaluate or get_url command reports [r.get("result", {}).get("value")]
    as its value or url, with success=true; when [r], or for an evaluation
    its "result", is not an object, the command reports success=false with
    the text of the AttributeError instead. *)
Theorem answered_command_reports_data r now fields st :
  connected st →
  let env := reply [("result", r)] now in
  (Py.assoc "action" fields = Some (JStr "screenshot") →
   ∃ st', drive env Reading (process_command (JObj fields) st) =
            (inr (), st', Reading) ∧
          redis_published st' =
            (redis_published st ++
             [(reply_channel fields,
               reported fields "data" (Py.get r "data" (JStr "")))])%list) ∧
  (Py.assoc "action" fields = Some (JStr "evaluate") →
   ∃ st', drive env Reading (process_command (JObj fields) st) =
            (inr (), st', Reading) ∧
          redis_published st' =
            (redis_published st ++
             [(reply_channel fields, reported fields "value" (evaluated r))])%list) ∧
  (Py.assoc "action" fields = Some (JStr "get_url") →
   ∃ st', drive env Reading (process_command (JObj fields) st) =
            (inr (), st', Reading) ∧
          redis_published st' =
            (redis_published st ++
             [(reply_channel fields, reported fields "url" (evaluated r))])%list).
Proof.
  intros Hconn env. split_and!; intros Haction;
    unfold process_command; rewrite !get_default, Haction; run_coro;
    rewrite drive_bind, drive_catch; unfold run_action; pick_action;
    rewrite ?get_default; unfold screenshot, evaluate; run_coro;
    rewrite !drive_bind.
  - destruct (drive_send_command_reply env [("result", r)] now
                "Page.captureScreenshot"
                (JObj [("format", JStr "png"); ("quality", JInt 80)]) st Hconn eq_refl)
      as (st1 & -> & _ & _ & _ & Hpub & _).
    cbn [Py.get Py.assoc String.eqb Ascii.eqb Bool.eqb].
    destruct r; cbn [Py.get drive except_Exception]; run_coro; cbn [drive];
      eexists; (split; [reflexivity|]); cbn; by rewrite Hpub.
  - destruct (drive_send_command_reply env [("result", r)] now
                "Runtime.evaluate"
                (evaluation (default (JStr "") (Py.assoc "expression" fields)))
                st Hconn eq_refl)
      as (st1 & Hd & _ & _ & _ & Hpub & _).
    unfold evaluation in Hd. rewrite Hd.
    cbn [Py.get Py.assoc String.eqb Ascii.eqb Bool.eqb]. unfold evaluated.
    destruct (Py.get r "result" (JObj [])) as [e|inner]; cbn [drive except_Exception];
      run_coro; cbn [drive];
      [eexists; (split; [reflexivity|]); cbn; by rewrite Hpub|].
    destruct (Py.get inner "value" JNull); cbn [drive except_Exception];
      run_coro; cbn [drive];
      eexists; (split; [reflexivity|]); cbn; by rewrite Hpub.
  - destruct (drive_send_command_reply env [("result", r)] now
                "Runtime.evaluate" (evaluation (JStr "window.location.href"))
                st Hconn eq_refl)
      as (st1 & Hd & _ & _ & _ & Hpub & _).
    unfold evaluation in Hd. rewrite Hd.
    cbn [Py.get Py.assoc String.eqb Ascii.eqb Bool.eqb]. unfold evaluated.
    destruct (Py.get r "result" (JObj [])) as [e|inner]; cbn [drive except_Exception];
      run_coro; cbn [drive];
      [eexists; (split; [reflexivity|]); cbn; by rewrite Hpub|].
    destruct (Py.get inner "value" JNull); cbn [drive except_Exception];
      run_coro; cbn [drive];
      eexists; (split; [reflexivity|]); cbn; by rewrite Hpub.
Qed.

Lemma answered_command_reports_data_witness :
  let r := JObj [("result", JObj [("type", JStr "string"); ("value", JStr "https://x/")])] in
  let env := reply [("result", r)] "t" in
  (∃ st', drive env Reading
            (process_command
               (JObj [("action", JStr "screenshot"); ("session_id", JStr "s1")])
               (session (JStr "ws://h/1"))) = (inr (), st', Reading) ∧
          redis_published st' =
            [(Fmt "browser:result:" (JStr "s1"),
              JObj [("session_id", JStr "s1"); ("success", JBool true);
                    ("data", JStr "")])]) ∧
  (∃ st', drive env Reading
            (process_command
               (JObj [("action", JStr "evaluate"); ("session_id", JStr "s1");
                      ("expression", JStr "location.href")])
               (session (JStr "ws://h/1"))) = (inr (), st', Reading) ∧
          redis_published st' =
            [(Fmt "browser:result:" (JStr "s1"),
              JObj [("session_id", JStr "s1"); ("success", JBool true);
                    ("value", JStr "https://x/")])]) ∧
  (∃ st', drive env Reading
            (process_command
               (JObj [("action", JStr "get_url"); ("session_id", JStr "s1")])
               (session (JStr "ws://h/1"))) = (inr (), st', Reading) ∧
          redis_published st' =
            [(Fmt "browser:result:" (JStr "s1"),
              JObj [("session_id", JStr "s1"); ("success", JBool true);
                    ("url", JStr "https://x/")])]).
Proof.
  intros r env. split_and!.
  - apply (proj1 (answered_command_reports_data r "t"
                    [("action", JStr "screenshot"); ("session_id", JStr "s1")]
                    (session (JStr "ws://h/1")) (ex_intro _ (JStr "ws://h/1") eq_refl))
             eq_refl).
  - apply (proj1 (proj2 (answered_command_reports_data r "t"
                    [("action", JStr "evaluate"); ("session_id", JStr "s1");
                     ("expression", JStr "location.href")]
                    (session (JStr "ws://h/1")) (ex_intro _ (JStr "ws://h/1") eq_refl)))
             eq_refl).
  - apply (proj2 (proj2 (answered_command_reports_data r "t"
                    [("action", JStr "get_url"); ("session_id", JStr "s1")]
                    (session (JStr "ws://h/1")) (ex_intro _ (JStr "ws://h/1") eq_refl)))
             eq_refl).
Defined.

(** ** type_text and click *)

Lemma drive_type_chars_reply payload now chars st :
  connected st →
  ∃ st',
    drive (reply payload now) Reading (type_chars chars st) =
      (inr (), st', Reading) ∧
    connected st' ∧
    ws_sent st' = (ws_sent st ++ key_frames (message_id st) chars)%list ∧
    message_id st' = message_id st + 2 * Z.of_nat (List.length chars).
Proof.
  revert st. induction chars as [|char chars IH]; intros st Hconn.
  - exists st. cbn. rewrite app_nil_r. split_and!; [done..|lia].
  - cbn [type_chars]. run_coro. rewrite drive_bind.
    destruct (drive_send_command_reply (reply payload now) payload now
                "Input.dispatchKeyEvent"
                (JObj [("type", JStr "keyDown"); ("text", char)]) st Hconn eq_refl)
      as (st1 & -> & [Hconn1 _] & Hm1 & Hs1 & _).
    rewrite drive_bind.
    destruct (drive_send_command_reply (reply payload now) payload now
                "Input.dispatchKeyEvent"
                (JObj [("type", JStr "keyUp"); ("text", char)]) st1 Hconn1 eq_refl)
      as (st2 & -> & Hset2 & Hm2 & Hs2 & _).
    unfold sleep. cbn [bind_res drive]. rewrite (read_settled_reply _ _ _ Hset2).
    destruct (IH st2 (proj1 Hset2)) as (st' & -> & Hconn' & Hs' & Hm').
    exists st'. split_and!; [done..| |].
    + rewrite Hs', Hs2, Hs1, Hm2, Hm1, <- !app_assoc. cbn [key_frames app].
      by replace (message_id st + 1 + 1) with (message_id st + 2) by lia.
    + rewrite Hm', Hm2, Hm1. cbn [List.length]. lia.
Qed.

(** X13: [type_text] of a text that cannot be iterated (a number, a
    boolean, null) raises the TypeError before anything is written; of any
    other text, with every call answered, it writes exactly one key-down
    and one key-up request per character, in the order of the text and
    with consecutive ids, and so uses two ids per character. *)
Theorem type_text_writes_key_pairs payload now text st :
  connected st →
  match Py.iter text with
  | inl e => type_text text st = Done (inl e) st
  | inr chars =>
      ∃ st',
        drive (reply payload now) Reading (type_text text st) =
          (inr (), st', Reading) ∧
        ws_sent st' = (ws_sent st ++ key_frames (message_id st) chars)%list ∧
        message_id st' = message_id st + 2 * Z.of_nat (List.length chars)
  end.
Proof.
  intros Hconn. unfold type_text.
  destruct (Py.iter text) as [e|chars]; run_coro; [done|].
  destruct (drive_type_chars_reply payload now chars st Hconn)
    as (st' & ? & _ & ? & ?).
  by exists st'.
Qed.

Lemma type_text_writes_key_pairs_witness :
  ∃ st',
    drive (reply [("result", JObj [])] "t") Reading
      (type_text (JStr "ok") (session (JStr "ws://h/1"))) = (inr (), st', Reading) ∧
    ws_sent st' =
      [request 1 "Input.dispatchKeyEvent" (JObj [("type", JStr "keyDown"); ("text", JStr "o")]);
       request 2 "Input.dispatchKeyEvent" (JObj [("type", JStr "keyUp"); ("text", JStr "o")]);
       request 3 "Input.dispatchKeyEvent" (JObj [("type", JStr "keyDown"); ("text", JStr "k")]);
       request 4 "Input.dispatchKeyEvent" (JObj [("type", JStr "keyUp"); ("text", JStr "k")])] ∧
    message_id st' = 4.
Proof.
  apply (type_text_writes_key_pairs [("result", JObj [])] "t" (JStr "ok")
           (session (JStr "ws://h/1"))).
  by eexists.
Defined.

(** X14: with its calls answered, [click] writes the press and then the
    release, both at the coordinates given, and nothing else; when the
    press is answered and the release is not, both have been written,
    [click] raises the timeout of the release, and nothing is undone: the
    press stays written and no entry is left in the table for the
    release. *)
Theorem click_press_then_release payload now x y st :
  connected st →
  let press := request (message_id st + 1) "Input.dispatchMouseEvent"
                 (mouse_event "mousePressed" x y) in
  let release := request (message_id st + 2) "Input.dispatchMouseEvent"
                   (mouse_event "mouseReleased" x y) in
  (∃ st', drive (reply payload now) Reading (click x y st) =
            (inr (), st', Reading) ∧
          ws_sent st' = (ws_sent st ++ [press; release])%list) ∧
  (∃ st', drive (answers_upto (message_id st + 1) payload now) Reading
            (click x y st) =
            (inl (Exn Exception "Command Input.dispatchMouseEvent timed out"),
             st', Reading) ∧
          ws_sent st' = (ws_sent st ++ [press; release])%list ∧
          pending_commands st' !! (message_id st + 2) = None).
Proof.
  intros Hconn press release. unfold click. run_coro. split.
  - rewrite drive_bind.
    destruct (drive_send_command_reply (reply payload now) payload now
                "Input.dispatchMouseEvent" (mouse_event "mousePressed" x y)
                st Hconn eq_refl)
      as (st1 & Hd1 & [Hconn1 _] & Hm1 & Hs1 & _).
    unfold mouse_event in Hd1. rewrite Hd1. rewrite drive_bind.
    destruct (drive_send_command_reply (reply payload now) payload now
                "Input.dispatchMouseEvent" (mouse_event "mouseReleased" x y)
                st1 Hconn1 eq_refl)
      as (st2 & Hd2 & _ & _ & Hs2 & _).
    unfold mouse_event in Hd2. rewrite Hd2. cbn [drive].
    exists st2. split; [done|]. rewrite Hs2, Hs1, Hm1, <- app_assoc.
    unfold press, release.
    by replace (message_id st + 1 + 1) with (message_id st + 2) by lia.
  - rewrite drive_bind.
    destruct (drive_send_command_reply
                (answers_upto (message_id st + 1) payload now) payload now
                "Input.dispatchMouseEvent" (mouse_event "mousePressed" x y)
                st Hconn)
      as (st1 & Hd1 & [Hconn1 _] & Hm1 & Hs1 & _).
    { unfold answers_upto. cbn [message_id registered enrolled set_ws_sent
        set_pending_commands set_futures set_message_id].
      by rewrite Z.leb_refl. }
    unfold mouse_event in Hd1. rewrite Hd1. rewrite drive_bind.
    destruct (drive_send_command_silent
                (answers_upto (message_id st + 1) payload now) Reading
                "Input.dispatchMouseEvent" (mouse_event "mouseReleased" x y)
                st1 Hconn1)
      as (st2 & Hd2 & _ & _ & Hs2 & Hp2 & _).
    { unfold answers_upto. cbn [message_id registered enrolled set_ws_sent
        set_pending_commands set_futures set_message_id].
      rewrite Hm1. by rewrite (proj2 (Z.leb_gt _ _)) by lia. }
    unfold mouse_event in Hd2. rewrite Hd2.
    exists st2. split; [done|]. split.
    + rewrite Hs2, Hs1, Hm1, <- app_assoc. unfold press, release.
      by replace (message_id st + 1 + 1) with (message_id st + 2) by lia.
    + rewrite Hp2, Hm1.
      replace (message_id st + 1 + 1) with (message_id st + 2) by lia.
      apply lookup_delete_eq.
Qed.

Lemma click_press_then_release_witness :
  (∃ st', drive (reply [("result", JObj [])] "t") Reading
            (click (JInt 10) (JInt 20) (session (JStr "ws://h/1"))) =
            (inr (), st', Reading) ∧
          ws_sent st' =
            [request 1 "Input.dispatchMouseEvent"
               (mouse_event "mousePressed" (JInt 10) (JInt 20));
             request 2 "Input.dispatchMouseEvent"
               (mouse_event "mouseReleased" (JInt 10) (JInt 20))]) ∧
  (∃ st', drive (answers_upto 1 [("result", JObj [])] "t") Reading
            (click (JInt 10) (JInt 20) (session (JStr "ws://h/1"))) =
            (inl (Exn Exception "Command Input.dispatchMouseEvent timed out"),
             st', Reading) ∧
          ws_sent st' =
            [request 1 "Input.dispatchMouseEvent"
               (mouse_event "mousePressed" (JInt 10) (JInt 20));
             request 2 "Input.dispatchMouseEvent"
               (mouse_event "mouseReleased" (JInt 10) (JInt 20))] ∧
          pending_commands st' !! 2 = None).
Proof.
  apply (click_press_then_release [("result", JObj [])] "t" (JInt 10) (JInt 20)
           (session (JStr "ws://h/1"))).
  by eexists.
Defined.
